(** * A shallow embedding of [scripts/compile_cpp.py] and [scripts/test_all.py]

    The build orchestrator of the thread-pool repository.  Paths are modelled
    as absolute, already resolved lists of components; file modification
    times ([st_mtime]) as integers; child processes ([subprocess.run]) as an
    oracle giving their return code, [None] standing for an exception raised
    when launching them. *)

From Stdlib Require Import List String Ascii Bool ZArith Lia.
Import ListNotations.
Open Scope Z_scope.

(** ** Filesystem *)

Definition path := list string.

Fixpoint path_eqb (p q : path) : bool :=
  match p, q with
  | [], [] => true
  | a :: p', b :: q' => String.eqb a b && path_eqb p' q'
  | _, _ => false
  end.

Record entry := { e_dir : bool; e_mtime : Z }.

(** A filesystem: every existing file or folder with its metadata. *)
Definition fsys := list (path * entry).

Fixpoint lookup (fs : fsys) (p : path) : option entry :=
  match fs with
  | [] => None
  | (q, e) :: fs' => if path_eqb p q then Some e else lookup fs' p
  end.

(** [path.exists()] *)
Definition exists_ (fs : fsys) (p : path) : bool :=
  match lookup fs p with Some _ => true | None => false end.

(** [path.is_dir()] *)
Definition is_dir (fs : fsys) (p : path) : bool :=
  match lookup fs p with Some e => e_dir e | None => false end.

(** [path.stat().st_mtime]; only ever evaluated on existing paths. *)
Definition mtime (fs : fsys) (p : path) : Z :=
  match lookup fs p with Some e => e_mtime e | None => 0 end.

(** Writing a file: the entry is replaced in place, or added. *)
Fixpoint write_file (fs : fsys) (p : path) (t : Z) : fsys :=
  match fs with
  | [] => [(p, {| e_dir := false; e_mtime := t |})]
  | (q, e) :: fs' =>
      if path_eqb p q then (q, {| e_dir := false; e_mtime := t |}) :: fs'
      else (q, e) :: write_file fs' p t
  end.

(** ** Staleness

    [any((path.exists() and path.stat().st_mtime > m) for path in paths)] *)
Definition any_newer (fs : fsys) (m : Z) (paths : list path) : bool :=
  existsb (fun p => exists_ fs p && (m <? mtime fs p)) paths.

(** The up-to-date test at the start of [compile_module] (lines 243-247):
    [true] when the module compilation is skipped. *)
Definition module_up_to_date (fs : fsys) (paths : list path) (out : path) : bool :=
  if exists_ fs out then negb (any_newer fs (mtime fs out) paths) else false.

(** [need_recompile] (lines 556-562). *)
Definition need_recompile (force recompiled_modules : bool) (fs : fsys)
    (binary_path : path) (inputs : list path) : bool :=
  if negb force && negb recompiled_modules && exists_ fs binary_path then
    if negb (any_newer fs (mtime fs binary_path) inputs) then false else true
  else true.

(** ** Processes and exits *)

Inductive event :=
| ModuleBuild (name : string)   (** the recursive [compile_cpp.py --as-module] *)
| MainBuild                     (** the compiler run of lines 648-652 *)
| RunProgram.                   (** the program run of lines 668-672 *)

Record St := { st_fs : fsys; st_now : Z; st_trace : list event }.

(** The result of a step: it goes on, or the process exits with a code. *)
Inductive outcome (A : Type) :=
| Ok (a : A) (s : St)
| Exit (code : Z) (s : St).
Arguments Ok {A} a s.
Arguments Exit {A} code s.

Definition M (A : Type) := St -> outcome A.

Definition ret {A} (a : A) : M A := fun s => Ok a s.

Definition bind {A B} (m : M A) (f : A -> M B) : M B :=
  fun s => match m s with Ok a s' => f a s' | Exit c s' => Exit c s' end.

Notation "x <- m ;; k" := (bind m (fun x => k))
  (at level 61, m at next level, right associativity).

(** [print_error_and_exit]: [sys.exit(1)]. *)
Definition print_error_and_exit {A} : M A := fun s => Exit 1 s.

(** The behaviour of the child processes. *)
Record Env := {
  child_rc : event -> option Z;
  (** whether a child that returned 0 wrote its output file: a module
      build is this script in module mode, given only the module file as
      source, and writes nothing when its own up-to-date check passes *)
  child_writes : event -> bool;
  (** whether a failing child left a (partial) file at its output path *)
  child_partial : event -> bool
}.

(** [subprocess.run]: the call is recorded, the clock advances, and the
    child's output file is written when it succeeds and writes it, or fails
    and leaves one behind. *)
Definition run_child (env : Env) (ev : event) (out : option path) : M (option Z) :=
  fun s =>
    let rc := child_rc env ev in
    let t := st_now s + 1 in
    let writes :=
      match rc with
      | Some 0 => child_writes env ev
      | Some _ => child_partial env ev
      | None => false
      end in
    let fs' :=
      match out with
      | Some o => if writes then write_file (st_fs s) o t else st_fs s
      | None => st_fs s
      end in
    Ok rc {| st_fs := fs'; st_now := t; st_trace := st_trace s ++ [ev] |}.

(** [compile_module] (lines 240-284); returns whether it recompiled. *)
Definition compile_module (env : Env) (name : string) (paths : list path)
    (module_output_path : path) : M bool :=
  fun s =>
    if module_up_to_date (st_fs s) paths module_output_path then Ok false s
    else
      (rc <- run_child env (ModuleBuild name) (Some module_output_path) ;;
       match rc with
       | Some 0 => ret true
       | Some _ => print_error_and_exit
       | None => print_error_and_exit
       end) s.

(** ** Names of artifacts *)

Fixpoint rfind_aux (c : ascii) (l : list ascii) (i : nat) (acc : option nat) : option nat :=
  match l with
  | [] => acc
  | x :: l' => rfind_aux c l' (S i) (if Ascii.eqb x c then Some i else acc)
  end.

(** [str.rfind(c)], [None] standing for -1. *)
Definition rfind (c : ascii) (s : string) : option nat :=
  rfind_aux c (list_ascii_of_string s) 0 None.

(** [PurePath.stem] of a name. *)
Definition stem_of_name (name : string) : string :=
  match rfind "."%char name with
  | Some i =>
      if (0 <? i)%nat && (i <? String.length name - 1)%nat
      then string_of_list_ascii (firstn i (list_ascii_of_string name))
      else name
  | None => name
  end.

Definition stem (p : path) : string := stem_of_name (last p ""%string).

Inductive Std := Cpp17 | Cpp20 | Cpp23.

(** The settings resolved by lines 343-536, consumed by the module stage and
    the main compilation. *)
Record Cfg := {
  as_module : bool;
  use_std_module : bool;
  std : Std;
  (** [module_paths]: the modules dict in insertion order, paths resolved *)
  module_paths : list (string * list path);
  build_folder : path;
  suffix : string;
  module_extension : string;
  force : bool;
  binary_path : path;
  source_paths : list path;
  deps_paths : list path;
  run : bool
}.

Fixpoint has_key {V} (k : string) (d : list (string * V)) : bool :=
  match d with
  | [] => false
  | (k', _) :: d' => String.eqb k k' || has_key k d'
  end.

Fixpoint dict_get {V} (k : string) (d : list (string * V)) (dflt : V) : V :=
  match d with
  | [] => dflt
  | (k', v) :: d' => if String.eqb k k' then v else dict_get k d' dflt
  end.

(** [module_output_paths] (line 541). *)
Definition module_output_path (cfg : Cfg) (p : list path) : path :=
  build_folder cfg ++
    [(stem (hd [] p) ++ "_module_" ++ suffix cfg ++ module_extension cfg)%string].

Definition module_output (cfg : Cfg) (n : string) : path :=
  module_output_path cfg (dict_get n (module_paths cfg) []).

Definition is_cpp20_or_23 (s : Std) : bool :=
  match s with Cpp17 => false | _ => true end.

(** [get_module_flags]: modelled by the name of the imported module. *)
Definition std_in_use (cfg : Cfg) : bool :=
  use_std_module cfg && has_key "std"%string (module_paths cfg).

(** The loop of lines 548-552 over the non-[std] modules; returns the
    imported names and whether one was recompiled. *)
Fixpoint compile_other_modules (env : Env) (cfg : Cfg)
    (ms : list (string * list path)) (acc : list string * bool)
    : M (list string * bool) :=
  match ms with
  | [] => ret acc
  | (n, p) :: ms' =>
      if String.eqb n "std"%string then compile_other_modules env cfg ms' acc
      else
        r <- compile_module env n p (module_output cfg n) ;;
        compile_other_modules env cfg ms' (fst acc ++ [n], snd acc || r)
  end.

(** Lines 539-553. *)
Definition module_stage (env : Env) (cfg : Cfg) : M (list string * bool) :=
  let imports0 := if std_in_use cfg then ["std"%string] else [] in
  if negb (as_module cfg) then
    r <- (if std_in_use cfg then
            compile_module env "std"%string
              [hd [] (dict_get "std"%string (module_paths cfg) [])] (module_output cfg "std"%string)
          else ret false) ;;
    (if (0 <? List.length (module_paths cfg))%nat && is_cpp20_or_23 (std cfg) then
       compile_other_modules env cfg (module_paths cfg) (imports0, r)
     else ret (imports0, r))
  else ret (imports0, false).

(** Lines 555-658: the up-to-date check and the compilation. *)
Definition main_compile (env : Env) (cfg : Cfg) (recompiled_modules : bool) : M unit :=
  fun s =>
    if need_recompile (force cfg) recompiled_modules (st_fs s) (binary_path cfg)
         (source_paths cfg ++ deps_paths cfg)
    then
      (rc <- run_child env MainBuild (Some (binary_path cfg)) ;;
       match rc with
       | Some 0 => ret tt
       | Some _ => print_error_and_exit
       | None => print_error_and_exit
       end) s
    else Ok tt s.

(** Lines 660-680. *)
Definition run_stage (env : Env) (cfg : Cfg) : M unit :=
  if run cfg then
    rc <- run_child env RunProgram None ;;
    match rc with
    | Some 0 => ret tt
    | Some _ => print_error_and_exit
    | None => print_error_and_exit
    end
  else ret tt.

(** Lines 539-680; returns the imported modules.  Reaching the end of the
    script is exit code 0. *)
Definition pipeline (env : Env) (cfg : Cfg) : M (list string) :=
  mi <- module_stage env cfg ;;
  _ <- main_compile env cfg (snd mi) ;;
  _ <- run_stage env cfg ;;
  ret (fst mi).

(** ** Output folder and binary name (lines 407-449, 527-536) *)

Fixpoint split_aux (c : ascii) (l : list ascii) (cur : list ascii) : list string :=
  match l with
  | [] => [string_of_list_ascii (rev cur)]
  | x :: l' =>
      if Ascii.eqb x c then string_of_list_ascii (rev cur) :: split_aux c l' []
      else split_aux c l' (x :: cur)
  end.

(** [str.split(c)] for a one-character separator. *)
Definition split_on (c : ascii) (s : string) : list string :=
  split_aux c (list_ascii_of_string s) [].

Definition starts_with_slash (s : string) : bool :=
  match s with String c _ => Ascii.eqb c "/"%char | EmptyString => false end.

(** [output.endswith(("/", "\\"))] *)
Definition ends_with_sep (s : string) : bool :=
  match rev (list_ascii_of_string s) with
  | c :: _ => Ascii.eqb c "/"%char || Ascii.eqb c "\"%char
  | [] => false
  end.

(** Normalisation by [Path.resolve()] (symbolic links are not modelled). *)
Fixpoint normalize (acc : path) (parts : list string) : path :=
  match parts with
  | [] => acc
  | x :: parts' =>
      if String.eqb x "" || String.eqb x "." then normalize acc parts'
      else if String.eqb x ".." then normalize (removelast acc) parts'
      else normalize (acc ++ [x]) parts'
  end.

(** [(pathlib.Path.cwd() / output).resolve()] *)
Definition resolve (cwd : path) (output : string) : path :=
  normalize (if starts_with_slash output then [] else cwd) (split_on "/"%char output).

(** A resolved path is always absolute. *)
Definition is_absolute (p : path) : bool := true.

Record OutputCfg := {
  o_build_folder : path;
  o_binary_path : option path;
  o_auto_binary : bool
}.

(** Lines 408-429. *)
Definition resolve_output (cwd : path) (fs : fsys) (output : option string) : OutputCfg :=
  match output with
  | Some o =>
      let output_path := resolve cwd o in
      if ends_with_sep o || is_dir fs output_path then
        {| o_build_folder := output_path; o_binary_path := None; o_auto_binary := true |}
      else if is_absolute output_path then
        {| o_build_folder := removelast output_path;
           o_binary_path := Some output_path; o_auto_binary := false |}
      else
        {| o_build_folder := cwd; o_binary_path := Some (cwd ++ output_path);
           o_auto_binary := false |}
  | None => {| o_build_folder := cwd; o_binary_path := None; o_auto_binary := true |}
  end.

Fixpoint is_prefix (p q : path) : bool :=
  match p, q with
  | [], _ => true
  | a :: p', b :: q' => String.eqb a b && is_prefix p' q'
  | _, [] => false
  end.

(** [shutil.rmtree(folder)]: the folder and everything below it. *)
Definition rmtree (fs : fsys) (folder : path) : fsys :=
  filter (fun '(q, _) => negb (is_prefix folder q)) fs.

Definition prefixes (p : path) : list path :=
  map (fun i => firstn i p) (seq 0 (S (List.length p))).

(** Every existing folder on the way to [p], [p] included, is a folder. *)
Definition dirs_on_path (fs : fsys) (p : path) : bool :=
  forallb (fun q => implb (exists_ fs q) (is_dir fs q)) (prefixes p).

(** Creating the missing folders of [prefixes folder], outermost first. *)
Definition mkdir_fold (fs : fsys) (folder : path) (t : Z) : fsys :=
  fold_left (fun fs q => if exists_ fs q then fs
                         else fs ++ [(q, {| e_dir := true; e_mtime := t |})])
    (prefixes folder) fs.

(** [Path.mkdir(exist_ok=True, parents=True)]; [None] for the
    [FileExistsError] or [NotADirectoryError] raised when the folder or one
    of its parents exists as a file. *)
Definition mkdir_p (fs : fsys) (folder : path) (t : Z) : option fsys :=
  if dirs_on_path fs folder then Some (mkdir_fold fs folder t) else None.

(** Lines 431-449.  An uncaught exception ends the script with exit code 1:
    [shutil.rmtree] raises [NotADirectoryError] on a file, and the creation
    of the folder fails as [mkdir_p] says. *)
Definition clear_stage (cwd : path) (clear_output : bool) (sources : list path)
    (build_folder : path) : M unit :=
  fun s =>
    let with_fs fs := {| st_fs := fs; st_now := st_now s; st_trace := st_trace s |} in
    if clear_output then
      if path_eqb build_folder cwd then Exit 1 s
      else if exists_ (st_fs s) build_folder && negb (is_dir (st_fs s) build_folder)
      then Exit 1 s
      else
        let fs0 := if exists_ (st_fs s) build_folder
                   then rmtree (st_fs s) build_folder else st_fs s in
        match mkdir_p fs0 build_folder (st_now s) with
        | None => Exit 1 (with_fs fs0)
        | Some fs1 => match sources with [] => Exit 0 (with_fs fs1) | _ => Ok tt (with_fs fs1) end
        end
    else
      match mkdir_p (st_fs s) build_folder (st_now s) with
      | None => Exit 1 s
      | Some fs1 => Ok tt (with_fs fs1)
      end.

(** What a Python statement does: a value, an uncaught exception, or an exit. *)
Inductive pyres (A : Type) :=
| Val (a : A)
| Raise (exc : string)
| SysExit (code : Z).
Arguments Val {A} a.
Arguments Raise {A} exc.
Arguments SysExit {A} code.

(** Lines 528-536. *)
Definition derive_binary_path (windows : bool) (as_module_ : bool)
    (sources : list path) (suffix_ module_extension_ : string)
    (out : OutputCfg) : pyres path :=
  if o_auto_binary out then
    let extension := if as_module_ then module_extension_
                     else if windows then ".exe"%string else ""%string in
    let module_indicator := if as_module_ then "module_"%string else ""%string in
    match nth_error sources 0 with
    | Some s0 =>
        Val (o_build_folder out ++
               [(stem s0 ++ "_" ++ module_indicator ++ suffix_ ++ extension)%string])
    | None => Raise "IndexError"
    end
  else
    match o_binary_path out with
    | Some p => Val p
    | None => SysExit 1
    end.

(** ** Configuration (lines 368-405) *)

(** The command-line options the merge reads ([Args]). *)
Record CliArgs := {
  a_define : list string;
  a_deps : list string;
  a_disable_exceptions : option string;
  a_flag : list string;
  a_include : list string;
  a_module : list string;
  a_output : option string;
  a_pass_args : list string;
  a_std_module : option string
}.

(** The keys of [compile_cpp.yaml]; [None] when the key is absent.  For
    [disable_exceptions], [Some true] is the YAML value [true]. *)
Record Config := {
  c_defines : option (list string);
  c_deps : option (list string);
  c_disable_exceptions : option bool;
  c_flags : option (list (string * list string));
  c_includes : option (list string);
  c_modules : option (list (string * list string));
  c_output : option string;
  c_pass_args : option (list string);
  c_std_module : option (list (string * list (string * string)))
}.

Record Merged := {
  defines : list string;
  deps : list string;
  disable_exceptions : bool;
  flags : list string;
  includes : list string;
  modules : list (string * list string);
  output : option string;
  pass_args : list string;
  std_module : option string
}.

(** [d[k] = v] on a dict: an existing key keeps its place. *)
Fixpoint dict_set {V} (k : string) (v : V) (d : list (string * V)) : list (string * V) :=
  match d with
  | [] => [(k, v)]
  | (k', v') :: d' => if String.eqb k k' then (k', v) :: d' else (k', v') :: dict_set k v d'
  end.

(** [d.update(e)] *)
Definition dict_update {V} (d e : list (string * V)) : list (string * V) :=
  fold_left (fun d '(k, v) => dict_set k v d) e d.

Fixpoint dict_lookup {V} (k : string) (d : list (string * V)) : option V :=
  match d with
  | [] => None
  | (k', v) :: d' => if String.eqb k k' then Some v else dict_lookup k d'
  end.

(** The modules dict comprehension of line 374: [None] for the
    [ValueError] of a specification without exactly one [=]. *)
Fixpoint parse_modules (specs : list string) (d : list (string * list string))
    : option (list (string * list string)) :=
  match specs with
  | [] => Some d
  | m :: specs' =>
      match split_on "="%char m with
      | [name; files] => parse_modules specs' (dict_set name (split_on ","%char files) d)
      | _ => None
      end
  end.

Definition opt_list {A} (o : option (list A)) : list A :=
  match o with Some l => l | None => [] end.

(** Lines 368-405; [None] is the exit of line 376.  [config] is [None] when
    [compile_cpp.yaml] is ignored or absent, and otherwise the dictionary
    of options it holds; a file holding something else (the exit of line
    388) or options of other types are not represented. *)
Definition merge_config (platform compiler : string) (a : CliArgs)
    (config : option Config) : option Merged :=
  match parse_modules (a_module a) [] with
  | None => None
  | Some cli_modules =>
      let base := {|
        defines := a_define a; deps := a_deps a;
        disable_exceptions := match a_disable_exceptions a with
                              | Some v => String.eqb v "true" | None => false end;
        flags := a_flag a; includes := a_include a; modules := cli_modules;
        output := a_output a; pass_args := a_pass_args a;
        std_module := a_std_module a |} in
      match config with
      | None => Some base
      | Some c =>
          Some {|
            defines := defines base ++ opt_list (c_defines c);
            deps := deps base ++ opt_list (c_deps c);
            disable_exceptions :=
              match a_disable_exceptions a, c_disable_exceptions c with
              | None, Some v => v
              | _, _ => disable_exceptions base
              end;
            flags := flags base ++
                       match c_flags c with
                       | Some fl => opt_list (dict_lookup compiler fl)
                       | None => []
                       end;
            includes := includes base ++ opt_list (c_includes c);
            modules := match c_modules c with
                       | Some cm => dict_update (modules base) cm
                       | None => modules base
                       end;
            output := match output base, c_output c with
                      | None, Some o => Some o
                      | o, _ => o
                      end;
            pass_args := pass_args base ++ opt_list (c_pass_args c);
            std_module :=
              match std_module base, c_std_module c with
              | None, Some sm =>
                  match dict_lookup platform sm with
                  | Some per_compiler =>
                      match dict_lookup compiler per_compiler with
                      | Some p => if (0 <? String.length p)%nat then Some p else None
                      | None => None
                      end
                  | None => None
                  end
              | v, _ => v
              end |}
      end
  end.

(** ** Matrix mode *)

(** The nested [for compiler in compilers: for std in standards:] loops of
    [compile_cpp.py --try-all] (lines 312-340) and of [test_all.py]
    (lines 50-87), which differ only in the exit code used when a
    combination fails: [fail_code] of the child's result.  Returns the
    combinations run, in order, and the exit code. *)
Fixpoint matrix_inner (fail_code : option Z -> Z) (rc : string * string -> option Z)
    (c : string) (stds : list string) : list (string * string) * option Z :=
  match stds with
  | [] => ([], None)
  | s :: stds' =>
      match rc (c, s) with
      | Some 0 => let '(r, e) := matrix_inner fail_code rc c stds' in ((c, s) :: r, e)
      | res => ([(c, s)], Some (fail_code res))
      end
  end.

Fixpoint matrix_outer (fail_code : option Z -> Z) (rc : string * string -> option Z)
    (cs stds : list string) : list (string * string) * option Z :=
  match cs with
  | [] => ([], None)
  | c :: cs' =>
      let '(r, e) := matrix_inner fail_code rc c stds in
      match e with
      | Some _ => (r, e)
      | None => let '(r', e') := matrix_outer fail_code rc cs' stds in (r ++ r', e')
      end
  end.

Definition standards : list string := ["c++17"; "c++20"; "c++23"]%string.

(** [compile_cpp.py --try-all]: [sys.exit(1)] on a failing combination or an
    exception, [sys.exit(0)] at the end. *)
Definition try_all (rc : string * string -> option Z) (compilers : list string)
    : list (string * string) * Z :=
  let '(r, e) := matrix_outer (fun _ => 1) rc compilers standards in
  (r, match e with Some c => c | None => 0 end).

(** [test_all.py]: [sys.exit(compile_result.returncode)] on a failing
    combination, [sys.exit(1)] on an exception, normal end otherwise. *)
Definition test_all (rc : string * string -> option Z) (compilers : list string)
    : list (string * string) * Z :=
  let '(r, e) := matrix_outer (fun res => match res with Some c => c | None => 1 end)
                   rc compilers standards in
  (r, match e with Some c => c | None => 0 end).

Definition detect_compilers (vs clang gpp darwin : bool) : list string :=
  (if vs then ["cl"%string] else []) ++ (if clang then ["clang++"%string] else [])
  ++ (if gpp && negb darwin then ["g++"%string] else []).

(** [cfg] with another [force] flag. *)
Definition with_force (cfg : Cfg) (b : bool) : Cfg :=
  {| as_module := as_module cfg; use_std_module := use_std_module cfg; std := std cfg;
     module_paths := module_paths cfg; build_folder := build_folder cfg;
     suffix := suffix cfg; module_extension := module_extension cfg; force := b;
     binary_path := binary_path cfg; source_paths := source_paths cfg;
     deps_paths := deps_paths cfg; run := run cfg |}.

Definition state_of {A} (o : outcome A) : St :=
  match o with Ok _ s => s | Exit _ s => s end.

(** ** Concrete runs *)

Definition src_main : path := ["src"; "main.cpp"]%string.
Definition src_m : path := ["src"; "m.ixx"]%string.
Definition bin_main : path := ["build"; "main_debug-gcc-cpp20"]%string.

Definition cfg_one_module (force_ : bool) : Cfg :=
  {| as_module := false; use_std_module := false; std := Cpp20;
     module_paths := [("m"%string, [src_m])]; build_folder := ["build"%string];
     suffix := "debug-gcc-cpp20"; module_extension := ".o"; force := force_;
     binary_path := bin_main; source_paths := [src_main]; deps_paths := [];
     run := false |}.

Definition mod_out_m : path := module_output (cfg_one_module false) "m".

Example mod_out_m_name : mod_out_m = ["build"; "m_module_debug-gcc-cpp20.o"]%string.
Proof. reflexivity. Qed.

Definition fresh_fs : fsys :=
  [(src_main, {| e_dir := false; e_mtime := 1 |});
   (src_m, {| e_dir := false; e_mtime := 1 |});
   (mod_out_m, {| e_dir := false; e_mtime := 5 |});
   (bin_main, {| e_dir := false; e_mtime := 5 |})].

(** A source newer than the binary left by an earlier build. *)
Definition stale_fs : fsys :=
  [(src_main, {| e_dir := false; e_mtime := 10 |});
   (bin_main, {| e_dir := false; e_mtime := 5 |})].

Definition st0 (fs : fsys) : St := {| st_fs := fs; st_now := 10; st_trace := [] |}.

Definition env_rc (f : event -> option Z) : Env :=
  {| child_rc := f; child_writes := fun _ => true; child_partial := fun _ => false |}.

Definition all_ok : Env := env_rc (fun _ => Some 0).

Example force_run_trace :
  st_trace (state_of (pipeline all_ok (cfg_one_module true) (st0 fresh_fs))) = [MainBuild].
Proof. reflexivity. Qed.

Example noforce_run_trace :
  st_trace (state_of (pipeline all_ok (cfg_one_module false) (st0 fresh_fs))) = [].
Proof. reflexivity. Qed.

(** ** Helper lemmas *)

Lemma any_newer_spec fs m paths :
  any_newer fs m paths = true <->
  exists p, In p paths /\ exists_ fs p = true /\ m < mtime fs p.
Proof.
  unfold any_newer. rewrite existsb_exists. split.
  - intros (p & Hin & H). apply andb_true_iff in H as [H1 H2].
    exists p. repeat split; auto. now apply Z.ltb_lt.
  - intros (p & Hin & H1 & H2). exists p. split; auto.
    apply andb_true_iff. split; auto. now apply Z.ltb_lt.
Qed.

(** ** Filesystem updates *)


Lemma path_eqb_eq p q : path_eqb p q = true <-> p = q.
Proof.
  revert q. induction p as [|a p IH]; intros [|b q]; simpl; split; intros H;
    try discriminate; auto.
  - apply andb_true_iff in H as [H1 H2]. apply String.eqb_eq in H1.
    apply IH in H2. now subst.
  - inversion H; subst. apply andb_true_iff. split; [apply String.eqb_refl | now apply IH].
Qed.

Lemma path_eqb_sym p q : path_eqb p q = path_eqb q p.
Proof.
  destruct (path_eqb p q) eqn:E1, (path_eqb q p) eqn:E2; auto.
  - apply path_eqb_eq in E1. subst. rewrite <- E2. symmetry. now apply path_eqb_eq.
  - apply path_eqb_eq in E2. subst. rewrite <- E1. now apply path_eqb_eq.
Qed.

Lemma lookup_write fs o t p :
  lookup (write_file fs o t) p =
  if path_eqb p o then Some {| e_dir := false; e_mtime := t |} else lookup fs p.
Proof.
  induction fs as [|[q e] fs IH]; simpl; [now destruct (path_eqb p o)|].
  destruct (path_eqb o q) eqn:Hoq.
  - apply path_eqb_eq in Hoq. subst. simpl. destruct (path_eqb p q); reflexivity.
  - simpl. rewrite IH. destruct (path_eqb p q) eqn:Hpq; auto.
    apply path_eqb_eq in Hpq. subst. rewrite path_eqb_sym, Hoq. reflexivity.
Qed.





(** ** C4 *)

(** C4: with [force] unset, both the module check of [compile_module] and the
    binary check [need_recompile] decide "rebuild" exactly when the artifact
    does not exist or some existing input is strictly newer than it; in
    particular an existing artifact none of whose inputs exist is fresh. *)
Theorem C4_staleness_decision (fs : fsys) (artifact : path) (inputs : list path) :
  (negb (module_up_to_date fs inputs artifact) = true <->
     exists_ fs artifact = false \/
     exists p, In p inputs /\ exists_ fs p = true /\ mtime fs artifact < mtime fs p)
  /\ (need_recompile false false fs artifact inputs = true <->
     exists_ fs artifact = false \/
     exists p, In p inputs /\ exists_ fs p = true /\ mtime fs artifact < mtime fs p)
  /\ (exists_ fs artifact = true -> Forall (fun p => exists_ fs p = false) inputs ->
      module_up_to_date fs inputs artifact = true /\
      need_recompile false false fs artifact inputs = false).
Proof.
  unfold module_up_to_date, need_recompile. simpl.
  destruct (exists_ fs artifact) eqn:Ha; simpl.
  - rewrite <- any_newer_spec. rewrite negb_involutive.
    split; [|split].
    + split; [intros H; now right | intros [H|H]; [discriminate|exact H]].
    + destruct (any_newer fs (mtime fs artifact) inputs); simpl;
        split; auto; intros [H|H]; discriminate.
    + intros _ Hall.
      assert (Hn : any_newer fs (mtime fs artifact) inputs = false).
      { apply not_true_is_false. rewrite any_newer_spec.
        intros (p & Hin & He & _). rewrite Forall_forall in Hall.
        rewrite (Hall p Hin) in He. discriminate. }
      rewrite Hn. split; reflexivity.
  - split; [|split].
    + split; auto.
    + split; auto.
    + discriminate.
Qed.

Lemma C4_staleness_decision_witness :
  module_up_to_date fresh_fs [src_m] mod_out_m = true
  /\ need_recompile false false stale_fs bin_main [src_main] = true.
Proof.
  split.
  - apply negb_false_iff. apply not_true_is_false. intros H.
    apply (proj1 (proj1 (C4_staleness_decision fresh_fs mod_out_m [src_m])) ) in H.
    destruct H as [H|(p & [<-|[]] & _ & Hlt)]; [discriminate|].
    vm_compute in Hlt. discriminate.
  - apply (proj1 (proj2 (C4_staleness_decision stale_fs bin_main [src_main]))).
    right. exists src_main. split; [left; reflexivity|]. split; reflexivity.
Defined.

Definition no_module_builds (l : list event) : Prop :=
  forall n, ~ In (ModuleBuild n) l.

Lemma run_child_trace env ev out s :
  st_trace (state_of (run_child env ev out s)) = st_trace s ++ [ev].
Proof. reflexivity. Qed.

Lemma main_compile_trace env cfg r s :
  exists ev, st_trace (state_of (main_compile env cfg r s)) = st_trace s ++ ev
             /\ no_module_builds ev.
Proof.
  unfold main_compile.
  destruct (need_recompile _ _ _ _ _).
  - exists [MainBuild]. split.
    + unfold bind, run_child. destruct (child_rc env MainBuild) as [[| |]|]; reflexivity.
    + intros n [H|[]]. discriminate.
  - exists []. split; [now rewrite app_nil_r | intros n []].
Qed.

Lemma run_stage_trace env cfg s :
  exists ev, st_trace (state_of (run_stage env cfg s)) = st_trace s ++ ev
             /\ no_module_builds ev.
Proof.
  unfold run_stage. destruct (run cfg).
  - exists [RunProgram]. split.
    + unfold bind, run_child. destruct (child_rc env RunProgram) as [[| |]|]; reflexivity.
    + intros n [H|[]]. discriminate.
  - exists []. split; [now rewrite app_nil_r | intros n []].
Qed.

Lemma no_module_builds_app l1 l2 :
  no_module_builds l1 -> no_module_builds l2 -> no_module_builds (l1 ++ l2).
Proof. intros H1 H2 n Hin. apply in_app_or in Hin as [H|H]; [eapply H1|eapply H2]; eauto. Qed.

(** After the module stage the script compiles no module. *)
Lemma pipeline_after_module_stage env cfg s :
  match module_stage env cfg s with
  | Ok _ s1 => exists ev, st_trace (state_of (pipeline env cfg s)) = st_trace s1 ++ ev
                          /\ no_module_builds ev
  | Exit c s1 => pipeline env cfg s = Exit c s1
  end.
Proof.
  unfold pipeline, bind.
  destruct (module_stage env cfg s) as [mi s1|c s1]; [|reflexivity].
  destruct (main_compile_trace env cfg (snd mi) s1) as (ev1 & E1 & N1).
  destruct (main_compile env cfg (snd mi) s1) as [u s2|c s2] eqn:Hm.
  - simpl in E1. destruct (run_stage_trace env cfg s2) as (ev2 & E2 & N2).
    destruct (run_stage env cfg s2) as [u' s3|c' s3]; simpl in *;
      exists (ev1 ++ ev2); rewrite E2, E1, app_assoc;
      split; auto using no_module_builds_app.
  - exists ev1. simpl in *. split; auto.
Qed.

Lemma compile_other_modules_force env cfg b ms acc s :
  compile_other_modules env (with_force cfg b) ms acc s =
  compile_other_modules env cfg ms acc s.
Proof.
  revert acc s. induction ms as [|[n p] ms IH]; intros acc s; simpl; [reflexivity|].
  destruct (String.eqb n "std"); [apply IH|].
  change (module_output (with_force cfg b) n) with (module_output cfg n).
  unfold bind. destruct (compile_module env n p (module_output cfg n) s); [apply IH|reflexivity].
Qed.

(** ** C5 *)

Definition cfg_std_module : Cfg :=
  {| as_module := true; use_std_module := true; std := Cpp23;
     module_paths := [("std"%string, [["usr"; "lib"; "llvm-19"; "std.cppm"]%string])];
     build_folder := ["build"%string];
     suffix := "debug-clang-cpp23"; module_extension := ".pcm"; force := false;
     binary_path := ["build"; "m_module_debug-clang-cpp23.pcm"]%string;
     source_paths := [src_m]; deps_paths := []; run := false |}.

(** C5 (counterexample): with [force] set, a module whose artifact is up to
    date is not rebuilt; only the main compilation runs. *)
Lemma C5_counterexample :
  force (cfg_one_module true) = true
  /\ module_up_to_date fresh_fs [src_m] mod_out_m = true
  /\ ~ In (ModuleBuild "m") (st_trace (state_of (pipeline all_ok (cfg_one_module true) (st0 fresh_fs)))).
Proof.
  split; [reflexivity|]. split; [reflexivity|].
  rewrite force_run_trace. intros [H|[]]. discriminate.
Qed.

(** C5 (as amended): [force] makes the binary check report "stale" whatever
    the timestamps, and the module stage, with its per-module up-to-date
    checks, is the same whether [force] is set or not. *)
Theorem C5_force_main_check_only :
  (forall rec fs bin inputs, need_recompile true rec fs bin inputs = true)
  /\ (forall env cfg b s, module_stage env (with_force cfg b) s = module_stage env cfg s).
Proof.
  split; [reflexivity|].
  intros env cfg b s. unfold module_stage. simpl.
  change (std_in_use (with_force cfg b)) with (std_in_use cfg).
  change (module_output (with_force cfg b)) with (module_output cfg).
  destruct (as_module cfg); simpl; [reflexivity|].
  unfold bind. destruct (if std_in_use cfg then _ else _) as [r s1|c s1]; [|reflexivity].
  destruct (_ && _); [apply compile_other_modules_force|reflexivity].
Qed.

(** ** C3 *)

(** C3 (counterexample): a module build ([as_module]) requesting the [std]
    module, whose artifact does not exist, does not precompile it. *)
Lemma C3_counterexample :
  std_in_use cfg_std_module = true
  /\ exists_ [(src_m, {| e_dir := false; e_mtime := 1 |})] (module_output cfg_std_module "std") = false
  /\ st_trace (state_of (pipeline all_ok cfg_std_module
                          (st0 [(src_m, {| e_dir := false; e_mtime := 1 |})]))) = [MainBuild].
Proof. repeat split; reflexivity. Qed.

(** C3 (as amended): in a module build ([as_module] set) no module at all is
    precompiled, the [std] module included; only the [std] module's import
    flags are added, when it is in use. *)
Theorem C3_as_module_compiles_no_module (env : Env) (cfg : Cfg) (s : St)
    (Has : as_module cfg = true) :
  module_stage env cfg s = Ok (if std_in_use cfg then ["std"%string] else [], false) s
  /\ exists ev, st_trace (state_of (pipeline env cfg s)) = st_trace s ++ ev
                /\ no_module_builds ev.
Proof.
  assert (Hm : module_stage env cfg s = Ok (if std_in_use cfg then ["std"%string] else [], false) s).
  { unfold module_stage. now rewrite Has. }
  split; [exact Hm|].
  pose proof (pipeline_after_module_stage env cfg s) as H. now rewrite Hm in H.
Qed.

Lemma C3_as_module_compiles_no_module_witness :
  as_module cfg_std_module = true
  /\ module_stage all_ok cfg_std_module (st0 []) = Ok (["std"%string], false) (st0 []).
Proof.
  split; [reflexivity|].
  exact (proj1 (C3_as_module_compiles_no_module all_ok cfg_std_module (st0 []) eq_refl)).
Defined.

(** ** C8 *)





















(** ** Failures: C1 and C2 *)

Lemma write_file_keeps fs q t p :
  exists_ fs p = true -> exists_ (write_file fs q t) p = true.
Proof.
  unfold exists_. induction fs as [|[r e] fs IH]; simpl; [discriminate|].
  destruct (path_eqb q r); simpl; destruct (path_eqb p r); auto.
Qed.

(** A computation whose only exit code is 1. *)
Definition exits_one {A} (m : M A) : Prop :=
  forall s c s', m s = Exit c s' -> c = 1.

Lemma exits_one_ret {A} (a : A) : exits_one (ret a).
Proof. intros s c s' H. discriminate. Qed.

Lemma exits_one_error {A} : exits_one (@print_error_and_exit A).
Proof. intros s c s' H. now inversion H. Qed.

Lemma exits_one_run_child env ev out : exits_one (run_child env ev out).
Proof. intros s c s' H. discriminate. Qed.

Lemma exits_one_bind {A B} (m : M A) (f : A -> M B) :
  exits_one m -> (forall a, exits_one (f a)) -> exits_one (bind m f).
Proof.
  intros Hm Hf s c s' H. unfold bind in H.
  destruct (m s) as [a s1|c1 s1] eqn:E.
  - eapply Hf; eauto.
  - inversion H; subst. eapply Hm; eauto.
Qed.

Lemma exits_one_rc {A} (k : A) : forall rc : option Z,
  exits_one (match rc with
             | Some 0 => ret k
             | Some _ => print_error_and_exit
             | None => print_error_and_exit
             end).
Proof.
  intros [[|z|z]|]; auto using exits_one_ret, exits_one_error.
Qed.

Lemma exits_one_compile_module env n p o : exits_one (compile_module env n p o).
Proof.
  intros s c s' H. unfold compile_module in H.
  destruct (module_up_to_date _ _ _); [discriminate|].
  revert H. apply exits_one_bind; [apply exits_one_run_child | apply exits_one_rc].
Qed.

Lemma exits_one_compile_other_modules env cfg ms :
  forall acc, exits_one (compile_other_modules env cfg ms acc).
Proof.
  induction ms as [|[n p] ms IH]; intros acc; simpl; [apply exits_one_ret|].
  destruct (String.eqb n "std"); [apply IH|].
  apply exits_one_bind; [apply exits_one_compile_module | intros; apply IH].
Qed.

Lemma exits_one_module_stage env cfg : exits_one (module_stage env cfg).
Proof.
  unfold module_stage. destruct (as_module cfg); simpl; [apply exits_one_ret|].
  apply exits_one_bind.
  - destruct (std_in_use cfg); [apply exits_one_compile_module | apply exits_one_ret].
  - intros r. destruct (_ && _);
      [apply exits_one_compile_other_modules | apply exits_one_ret].
Qed.

Lemma exits_one_main_compile env cfg r : exits_one (main_compile env cfg r).
Proof.
  intros s c s' H. unfold main_compile in H.
  destruct (need_recompile _ _ _ _ _); [|discriminate].
  revert H. apply exits_one_bind; [apply exits_one_run_child | apply exits_one_rc].
Qed.

Lemma exits_one_run_stage env cfg : exits_one (run_stage env cfg).
Proof.
  unfold run_stage. destruct (run cfg); [|apply exits_one_ret].
  apply exits_one_bind; [apply exits_one_run_child | apply exits_one_rc].
Qed.

Definition cfg_main : Cfg :=
  {| as_module := false; use_std_module := false; std := Cpp20;
     module_paths := []; build_folder := ["build"%string];
     suffix := "debug-gcc-cpp20"; module_extension := ".o"; force := false;
     binary_path := bin_main; source_paths := [src_main]; deps_paths := [];
     run := false |}.

Definition env_main_fails : Env :=
  env_rc (fun ev => match ev with MainBuild => Some 1 | _ => Some 0 end).

(** C1 (counterexample): the compiler fails on a stale binary; the script
    exits with a non-zero code and the stale binary is still there. *)
Lemma C1_counterexample :
  exists_ stale_fs bin_main = true
  /\ match pipeline env_main_fails cfg_main (st0 stale_fs) with
     | Exit c s' => c <> 0 /\ In MainBuild (st_trace s') /\ exists_ (st_fs s') bin_main = true
     | Ok _ _ => False
     end.
Proof. vm_compute. repeat split; auto; discriminate. Qed.

(** C1 (as amended): when the main compilation fails, the script exits with
    code 1 and deletes nothing: every file that existed before, the target
    artifact included, still exists; no path other than the target changes;
    and the target holds what the failing compiler left there, if it left
    anything, and is otherwise as it was. *)
Theorem C1_main_failure_deletes_nothing (env : Env) (cfg : Cfg) (rec : bool)
    (s s' : St) (c : Z) (Hfail : main_compile env cfg rec s = Exit c s') :
  c = 1
  /\ (forall p, exists_ (st_fs s) p = true -> exists_ (st_fs s') p = true)
  /\ (forall p, path_eqb p (binary_path cfg) = false -> lookup (st_fs s') p = lookup (st_fs s) p)
  /\ lookup (st_fs s') (binary_path cfg)
     = if child_partial env MainBuild
          && match child_rc env MainBuild with Some _ => true | None => false end
       then Some {| e_dir := false; e_mtime := st_now s + 1 |}
       else lookup (st_fs s) (binary_path cfg).
Proof.
  split; [eapply exits_one_main_compile; eauto|].
  unfold main_compile in Hfail.
  destruct (need_recompile _ _ _ _ _); [|discriminate].
  unfold bind, run_child in Hfail.
  assert (Hb : path_eqb (binary_path cfg) (binary_path cfg) = true) by now apply path_eqb_eq.
  destruct (child_rc env MainBuild) as [[|z|z]|]; simpl in Hfail;
    [destruct (child_writes env MainBuild); discriminate | | |];
    destruct (child_partial env MainBuild); inversion Hfail; subst; simpl;
    (split; [intros p Hp; auto using write_file_keeps|
             split; [intros p Hp; rewrite ?lookup_write, ?Hp; reflexivity|
                     rewrite ?lookup_write, ?Hb; reflexivity]]).
Qed.

(** A failing compiler that leaves a file where there was none. *)
Definition env_main_partial : Env :=
  {| child_rc := fun ev => match ev with MainBuild => Some 1 | _ => Some 0 end;
     child_writes := fun _ => true; child_partial := fun _ => true |}.

Lemma C1_main_failure_deletes_nothing_witness :
  main_compile env_main_fails cfg_main false (st0 stale_fs)
    = Exit 1 {| st_fs := stale_fs; st_now := 11; st_trace := [MainBuild] |}
  /\ exists_ (st_fs {| st_fs := stale_fs; st_now := 11; st_trace := [MainBuild] |}) bin_main
     = true
  /\ exists s', main_compile env_main_partial cfg_main false (st0 [(src_main, {| e_dir := false; e_mtime := 10 |})])
                = Exit 1 s'
       /\ lookup (st_fs s') bin_main = Some {| e_dir := false; e_mtime := 11 |}.
Proof.
  split; [reflexivity|]. split.
  - exact (proj1 (proj2 (C1_main_failure_deletes_nothing env_main_fails cfg_main false
                           (st0 stale_fs) _ 1 eq_refl)) bin_main eq_refl).
  - eexists. split; [reflexivity|].
    exact (proj2 (proj2 (proj2 (C1_main_failure_deletes_nothing env_main_partial cfg_main false
             (st0 [(src_main, {| e_dir := false; e_mtime := 10 |})]) _ 1 eq_refl)))).
Defined.

Definition env_module_fails : Env :=
  env_rc (fun ev => match ev with ModuleBuild _ => Some 2 | _ => Some 0 end).

(** C2 (counterexample): a module build failing with code 2 makes the
    script exit with code 1. *)
Lemma C2_counterexample :
  child_rc env_module_fails (ModuleBuild "m") = Some 2
  /\ exists s', pipeline env_module_fails (cfg_one_module false) (st0 stale_fs) = Exit 1 s'.
Proof. split; [reflexivity|]. eexists. reflexivity. Qed.

(** C2 (as amended): whatever fails (a module build, the main compilation,
    the program run, or the launch of one of them), the script exits with
    the fixed code 1, not with the child's code. *)
Theorem C2_failures_exit_one (env : Env) (cfg : Cfg) (s s' : St) (c : Z)
    (Hexit : pipeline env cfg s = Exit c s') :
  c = 1.
Proof.
  revert Hexit. unfold pipeline.
  apply exits_one_bind; [apply exits_one_module_stage|]. intros mi.
  apply exits_one_bind; [apply exits_one_main_compile|]. intros _.
  apply exits_one_bind; [apply exits_one_run_stage|]. intros _.
  apply exits_one_ret.
Qed.

Lemma C2_failures_exit_one_witness :
  (exists s', pipeline env_module_fails (cfg_one_module false) (st0 stale_fs) = Exit 1 s')
  /\ 1 = 1.
Proof.
  split; [eexists; reflexivity|].
  apply (C2_failures_exit_one env_module_fails (cfg_one_module false) (st0 stale_fs)
           {| st_fs := stale_fs; st_now := 11; st_trace := [ModuleBuild "m"] |} 1).
  reflexivity.
Defined.

(** ** Matrix mode: C6 *)

(** The nested loops, flattened over the combinations in order. *)
Fixpoint matrix_flat (fail_code : option Z -> Z) (rc : string * string -> option Z)
    (l : list (string * string)) : list (string * string) * option Z :=
  match l with
  | [] => ([], None)
  | x :: l' =>
      match rc x with
      | Some 0 => let '(r, e) := matrix_flat fail_code rc l' in (x :: r, e)
      | res => ([x], Some (fail_code res))
      end
  end.

Lemma matrix_flat_app fc rc l1 l2 :
  matrix_flat fc rc (l1 ++ l2) =
  let '(r, e) := matrix_flat fc rc l1 in
  match e with
  | Some _ => (r, e)
  | None => let '(r', e') := matrix_flat fc rc l2 in (r ++ r', e')
  end.
Proof.
  induction l1 as [|x l1 IH]; simpl.
  - destruct (matrix_flat fc rc l2); reflexivity.
  - destruct (rc x) as [[|z|z]|]; simpl; try reflexivity.
    rewrite IH. destruct (matrix_flat fc rc l1) as [r [e|]]; simpl; [reflexivity|].
    destruct (matrix_flat fc rc l2); reflexivity.
Qed.

Lemma matrix_inner_flat fc rc c stds :
  matrix_inner fc rc c stds = matrix_flat fc rc (map (fun s => (c, s)) stds).
Proof.
  induction stds as [|s stds IH]; simpl; [reflexivity|].
  destruct (rc (c, s)) as [[|z|z]|]; rewrite ?IH; reflexivity.
Qed.

Lemma matrix_outer_flat fc rc cs stds :
  matrix_outer fc rc cs stds = matrix_flat fc rc (list_prod cs stds).
Proof.
  induction cs as [|c cs IH]; simpl; [reflexivity|].
  rewrite matrix_flat_app, <- matrix_inner_flat, IH. reflexivity.
Qed.

Lemma matrix_flat_first_failure fc rc pre x post :
  Forall (fun y => rc y = Some 0) pre -> rc x <> Some 0 ->
  matrix_flat fc rc (pre ++ x :: post) = (pre ++ [x], Some (fc (rc x))).
Proof.
  intros Hpre Hx. induction Hpre as [|y pre Hy Hpre IH]; simpl.
  - destruct (rc x) as [[|z|z]|]; [contradiction|reflexivity|reflexivity|reflexivity].
  - rewrite Hy, IH. reflexivity.
Qed.

Definition fourth_fails (c : string * string) : option Z :=
  if String.eqb (fst c) "g++" && String.eqb (snd c) "c++17" then Some 2 else Some 0.

(** C6 (counterexample): over 2 compilers and 3 standards, the fourth
    combination fails with code 2; [compile_cpp.py --try-all] runs 4
    sub-builds but exits with code 1. *)
Lemma C6_counterexample :
  fourth_fails (nth 3 (list_prod ["clang++"; "g++"]%string standards) (""%string, ""%string))
    = Some 2
  /\ try_all fourth_fails ["clang++"; "g++"]%string
     = ([("clang++", "c++17"); ("clang++", "c++20"); ("clang++", "c++23");
         ("g++", "c++17")]%string, 1).
Proof. split; reflexivity. Qed.

(** C6 (as amended): the combinations run in order (compilers outer,
    standards from oldest to newest) up to and including the first failing
    one, then none; [compile_cpp.py --try-all] then exits with code 1 and
    [test_all.py] with the failing sub-build's code (1 when it could not be
    launched). *)
Theorem C6_matrix_fail_fast (rc : string * string -> option Z) (compilers : list string)
    (pre : list (string * string)) (x : string * string) (post : list (string * string))
    (Hsplit : list_prod compilers standards = pre ++ x :: post)
    (Hpre : Forall (fun y => rc y = Some 0) pre)
    (Hx : rc x <> Some 0) :
  try_all rc compilers = (pre ++ [x], 1)
  /\ test_all rc compilers =
       (pre ++ [x], match rc x with Some c => c | None => 1 end).
Proof.
  unfold try_all, test_all. rewrite !matrix_outer_flat, Hsplit.
  rewrite !matrix_flat_first_failure by assumption. split; reflexivity.
Qed.

Lemma C6_matrix_fail_fast_witness :
  List.length (fst (try_all fourth_fails ["clang++"; "g++"]%string)) = 4%nat
  /\ test_all fourth_fails ["clang++"; "g++"]%string
     = ([("clang++", "c++17"); ("clang++", "c++20"); ("clang++", "c++23");
         ("g++", "c++17")]%string, 2).
Proof.
  destruct (C6_matrix_fail_fast fourth_fails ["clang++"; "g++"]%string
              [("clang++", "c++17"); ("clang++", "c++20"); ("clang++", "c++23")]%string
              ("g++", "c++17")%string [("g++", "c++20"); ("g++", "c++23")]%string)
    as [H1 H2].
  - reflexivity.
  - repeat constructor.
  - simpl. discriminate.
  - rewrite H1, H2. split; reflexivity.
Defined.

(** ** Configuration: C7 *)

Lemma dict_lookup_set {V} n k (v : V) d :
  dict_lookup n (dict_set k v d) = if String.eqb n k then Some v else dict_lookup n d.
Proof.
  induction d as [|[k' v'] d IH]; simpl; [reflexivity|].
  destruct (String.eqb_spec k k') as [->|Hk]; simpl.
  - destruct (String.eqb n k'); reflexivity.
  - rewrite IH. destruct (String.eqb_spec n k'), (String.eqb_spec n k); subst; auto.
    contradiction.
Qed.

Lemma dict_lookup_app {V} n (l1 l2 : list (string * V)) :
  dict_lookup n (l1 ++ l2) =
  match dict_lookup n l1 with Some v => Some v | None => dict_lookup n l2 end.
Proof.
  induction l1 as [|[k v] l1 IH]; simpl; [reflexivity|].
  destruct (String.eqb n k); auto.
Qed.

(** After [d.update(e)], a name takes its value from the last entry of [e]
    with that name, if any, and from [d] otherwise. *)
Lemma dict_lookup_update {V} n (d e : list (string * V)) :
  dict_lookup n (dict_update d e) =
  match dict_lookup n (rev e) with Some v => Some v | None => dict_lookup n d end.
Proof.
  unfold dict_update. revert d.
  induction e as [|[k v] e IH]; intros d; simpl; [reflexivity|].
  rewrite IH, dict_lookup_app, dict_lookup_set. simpl.
  destruct (dict_lookup n (rev e)); [reflexivity|].
  destruct (String.eqb n k); reflexivity.
Qed.

Definition cli_m_a : CliArgs :=
  {| a_define := []; a_deps := []; a_disable_exceptions := None; a_flag := [];
     a_include := []; a_module := ["m=a.ixx"%string]; a_output := None;
     a_pass_args := []; a_std_module := None |}.

Definition config_m_b : Config :=
  {| c_defines := None; c_deps := None; c_disable_exceptions := None; c_flags := None;
     c_includes := None; c_modules := Some [("m"%string, ["b.ixx"%string])];
     c_output := None; c_pass_args := None; c_std_module := None |}.

(** C7 (counterexample): module [m] is given as [a.ixx] on the command line
    and as [b.ixx] in [compile_cpp.yaml]; the merged value is [b.ixx]. *)
Lemma C7_counterexample :
  parse_modules (a_module cli_m_a) [] = Some [("m"%string, ["a.ixx"%string])]
  /\ exists mg, merge_config "Linux" "g++" cli_m_a (Some config_m_b) = Some mg
                /\ dict_lookup "m" (modules mg) = Some ["b.ixx"%string].
Proof. split; [reflexivity|]. eexists. split; reflexivity. Qed.

(** C7 (as amended): defines, dependencies, includes, pass-through
    arguments and the compiler's flags from the document are appended to the
    command-line ones; the exception policy, the output path and the
    standard-library module path come from the document only when the
    command line omits them; a module named in the document takes the
    document's files, replacing a command-line entry of the same name, and
    the other command-line modules are kept. *)
Theorem C7_config_merge (platform compiler : string) (a : CliArgs) (c : Config)
    (mg : Merged) (Hmerge : merge_config platform compiler a (Some c) = Some mg) :
  exists cli_modules,
    parse_modules (a_module a) [] = Some cli_modules
    /\ defines mg = a_define a ++ opt_list (c_defines c)
    /\ deps mg = a_deps a ++ opt_list (c_deps c)
    /\ includes mg = a_include a ++ opt_list (c_includes c)
    /\ pass_args mg = a_pass_args a ++ opt_list (c_pass_args c)
    /\ flags mg = a_flag a ++ match c_flags c with
                             | Some fl => opt_list (dict_lookup compiler fl)
                             | None => []
                             end
    /\ disable_exceptions mg = match a_disable_exceptions a with
                               | Some v => String.eqb v "true"
                               | None => match c_disable_exceptions c with
                                         | Some b => b | None => false end
                               end
    /\ output mg = match a_output a with Some o => Some o | None => c_output c end
    /\ (a_std_module a <> None -> std_module mg = a_std_module a)
    /\ (forall n, dict_lookup n (modules mg) =
          match c_modules c with
          | Some cm => match dict_lookup n (rev cm) with
                       | Some v => Some v
                       | None => dict_lookup n cli_modules
                       end
          | None => dict_lookup n cli_modules
          end).
Proof.
  unfold merge_config in Hmerge.
  destruct (parse_modules (a_module a) []) as [cli_modules|]; [|discriminate].
  inversion Hmerge; subst; clear Hmerge. exists cli_modules. simpl.
  repeat split.
  - destruct (a_disable_exceptions a), (c_disable_exceptions c); reflexivity.
  - destruct (a_output a), (c_output c); reflexivity.
  - intros Hs. destruct (a_std_module a); [|contradiction]. reflexivity.
  - intros n. destruct (c_modules c) as [cm|]; [apply dict_lookup_update|reflexivity].
Qed.

Lemma C7_config_merge_witness :
  exists mg, merge_config "Linux" "g++" cli_m_a (Some config_m_b) = Some mg
    /\ output mg = None.
Proof.
  eexists. split; [reflexivity|].
  destruct (C7_config_merge "Linux" "g++" cli_m_a config_m_b _ eq_refl)
    as (cm & _ & _ & _ & _ & _ & _ & _ & Ho & _).
  exact Ho.
Defined.

(** ** Binary name: C9 *)

(** C9: when the binary name is derived automatically (no output given, or
    an output folder), an empty list of source files makes the script index
    [source_paths[0]] and raise [IndexError]; there is no dedicated error
    exit for a missing input file. *)
Theorem C9_empty_sources_raise (windows as_module_ : bool) (suffix_ ext : string)
    (cwd : path) (fs : fsys) (output_ : option string)
    (Hauto : o_auto_binary (resolve_output cwd fs output_) = true) :
  derive_binary_path windows as_module_ [] suffix_ ext (resolve_output cwd fs output_)
  = Raise "IndexError".
Proof. unfold derive_binary_path. now rewrite Hauto. Qed.

Lemma C9_empty_sources_raise_witness :
  o_auto_binary (resolve_output ["home"; "u"; "proj"]%string [] None) = true
  /\ derive_binary_path false false [] "debug-gcc-cpp23" "" 
       (resolve_output ["home"; "u"; "proj"]%string [] None) = Raise "IndexError".
Proof.
  split; [reflexivity|].
  apply C9_empty_sources_raise. reflexivity.
Defined.

(** ** Clearing the output folder: C10 *)

(** ** Clearing and creating the build folder: lemmas *)

Lemma lookup_rmtree fs f q :
  lookup (rmtree fs f) q = if is_prefix f q then None else lookup fs q.
Proof.
  unfold rmtree. induction fs as [|[p e] fs IH]; simpl; [now destruct (is_prefix f q)|].
  destruct (is_prefix f p) eqn:Ep; simpl; rewrite ?IH.
  - destruct (path_eqb q p) eqn:Eq; [|reflexivity].
    apply path_eqb_eq in Eq. subst. now rewrite Ep.
  - destruct (path_eqb q p) eqn:Eq; [|reflexivity].
    apply path_eqb_eq in Eq. subst. now rewrite Ep.
Qed.

Lemma lookup_snoc fs q e p :
  lookup (fs ++ [(q, e)]) p =
  match lookup fs p with Some x => Some x | None => if path_eqb p q then Some e else None end.
Proof.
  induction fs as [|[r x] fs IH]; simpl; [now destruct (path_eqb p q)|].
  destruct (path_eqb p r); [reflexivity | exact IH].
Qed.

Lemma lookup_mkdir_fold fs f t p :
  lookup (mkdir_fold fs f t) p =
  match lookup fs p with
  | Some x => Some x
  | None => if existsb (path_eqb p) (prefixes f)
            then Some {| e_dir := true; e_mtime := t |} else None
  end.
Proof.
  unfold mkdir_fold. generalize (prefixes f) as L. intros L. revert fs.
  induction L as [|q L IH]; intros fs; simpl; [now destruct (lookup fs p)|].
  rewrite IH. unfold exists_. destruct (lookup fs q) as [x|] eqn:Eq.
  - destruct (lookup fs p) eqn:Ep; [reflexivity|].
    destruct (path_eqb p q) eqn:Epq; [|reflexivity].
    apply path_eqb_eq in Epq. subst. congruence.
  - rewrite lookup_snoc. destruct (lookup fs p); [reflexivity|].
    destruct (path_eqb p q); reflexivity.
Qed.

Lemma is_prefix_refl p : is_prefix p p = true.
Proof. induction p as [|a p IH]; simpl; [reflexivity|]. now rewrite String.eqb_refl. Qed.

Lemma is_prefix_app p q : is_prefix p q = true -> exists r, q = p ++ r.
Proof.
  revert q. induction p as [|a p IH]; intros [|b q]; simpl; try discriminate.
  - intros _. now exists [].
  - intros _. now exists (b :: q).
  - intros H. apply andb_true_iff in H as [Hab Hpq]. apply String.eqb_eq in Hab. subst.
    destruct (IH q Hpq) as [r ->]. now exists r.
Qed.

Lemma in_prefixes f q :
  existsb (path_eqb q) (prefixes f) = true -> (List.length q <= List.length f)%nat.
Proof.
  unfold prefixes. intros H. apply existsb_exists in H as (x & Hx & E).
  apply path_eqb_eq in E. subst. apply in_map_iff in Hx as (i & <- & _).
  rewrite length_firstn. lia.
Qed.

Lemma self_in_prefixes f : existsb (path_eqb f) (prefixes f) = true.
Proof.
  apply existsb_exists. exists f. split; [|now apply path_eqb_eq].
  unfold prefixes. apply in_map_iff. exists (List.length f).
  split; [apply firstn_all | apply in_seq; lia].
Qed.

Lemma below_not_in_prefixes f q :
  is_prefix f q = true -> q <> f -> existsb (path_eqb q) (prefixes f) = false.
Proof.
  intros Hp Hne. destruct (existsb _ _) eqn:E; [|reflexivity].
  apply in_prefixes in E. destruct (is_prefix_app f q Hp) as [r ->].
  rewrite length_app in E. destruct r; [now rewrite app_nil_r in Hne|]. simpl in E. lia.
Qed.

(** A filesystem where the parent of every entry exists, as on a real disk. *)
Definition closed (fs : fsys) : bool :=
  forallb (fun '(q, _) => match q with [] => true | _ :: _ => exists_ fs (removelast q) end) fs.

Lemma lookup_in fs q e : lookup fs q = Some e -> In (q, e) fs.
Proof.
  induction fs as [|[r x] fs IH]; simpl; [discriminate|].
  destruct (path_eqb q r) eqn:E; [|auto].
  intros H. injection H as <-. apply path_eqb_eq in E. subst. now left.
Qed.

Lemma closed_parent fs q :
  closed fs = true -> exists_ fs q = true -> q <> [] -> exists_ fs (removelast q) = true.
Proof.
  intros Hc Hq Hne. unfold exists_ in Hq. destruct (lookup fs q) as [e|] eqn:El; [|discriminate].
  apply lookup_in in El. unfold closed in Hc. rewrite forallb_forall in Hc.
  specialize (Hc _ El). destruct q; [contradiction | exact Hc].
Qed.

Lemma closed_subtree fs f r :
  closed fs = true -> exists_ fs f = false -> exists_ fs (f ++ r) = false.
Proof.
  intros Hc Hf. induction r as [|x r IH] using rev_ind; [now rewrite app_nil_r|].
  destruct (exists_ fs (f ++ r ++ [x])) eqn:E; [|reflexivity].
  rewrite app_assoc in E. apply closed_parent in E; auto.
  - rewrite removelast_last in E. congruence.
  - intros H. apply app_eq_nil in H as [_ H]. discriminate.
Qed.

Lemma is_prefix_trans p q r :
  is_prefix p q = true -> is_prefix q r = true -> is_prefix p r = true.
Proof.
  intros Hpq Hqr. destruct (is_prefix_app p q Hpq) as [a ->].
  destruct (is_prefix_app (p ++ a) r Hqr) as [b ->]. rewrite <- app_assoc.
  clear. induction p as [|x p IH]; simpl; [reflexivity|]. now rewrite String.eqb_refl.
Qed.

Lemma is_prefix_strict_length p q :
  is_prefix p q = true -> path_eqb p q = false -> (List.length p < List.length q)%nat.
Proof.
  intros Hp Hne. destruct (is_prefix_app p q Hp) as [[|x r] ->].
  - rewrite app_nil_r, (proj2 (path_eqb_eq p p) eq_refl) in Hne. discriminate.
  - rewrite length_app. simpl. lia.
Qed.

Lemma is_prefix_length p q : is_prefix p q = true -> (List.length p <= List.length q)%nat.
Proof. intros Hp. destruct (is_prefix_app p q Hp) as [r ->]. rewrite length_app. lia. Qed.

Lemma prefix_of_prefix f q : In q (prefixes f) -> is_prefix f q = true -> q = f.
Proof.
  intros Hq Hp. unfold prefixes in Hq. apply in_map_iff in Hq as (k & <- & _).
  apply is_prefix_length in Hp. rewrite length_firstn in Hp.
  apply firstn_all2. lia.
Qed.

Lemma dirs_on_path_self fs p :
  dirs_on_path fs p = true -> exists_ fs p = true -> is_dir fs p = true.
Proof.
  unfold dirs_on_path. intros H He. rewrite forallb_forall in H.
  assert (Hin : In p (prefixes p)).
  { pose proof (self_in_prefixes p) as E. apply existsb_exists in E as (x & Hx & Ex).
    apply path_eqb_eq in Ex. now subst. }
  specialize (H p Hin). rewrite He in H. exact H.
Qed.

Lemma dirs_on_path_rmtree fs f :
  dirs_on_path fs f = true -> dirs_on_path (rmtree fs f) f = true.
Proof.
  unfold dirs_on_path. rewrite !forallb_forall. intros H q Hq. specialize (H q Hq).
  unfold exists_, is_dir in *. rewrite lookup_rmtree.
  destruct (is_prefix f q); [reflexivity | exact H].
Qed.

(** The clearing branch once the guards are passed: the folder's subtree is
    removed when the folder exists, and the folder is created again. *)
Lemma clear_stage_cleared cwd sources folder s :
  path_eqb folder cwd = false -> dirs_on_path (st_fs s) folder = true ->
  let fs0 := if exists_ (st_fs s) folder then rmtree (st_fs s) folder else st_fs s in
  let s' := {| st_fs := mkdir_fold fs0 folder (st_now s); st_now := st_now s;
               st_trace := st_trace s |} in
  clear_stage cwd true sources folder s
  = match sources with [] => Exit 0 s' | _ :: _ => Ok tt s' end.
Proof.
  intros Hne Hd fs0 s'. unfold clear_stage. rewrite Hne.
  destruct (exists_ (st_fs s) folder) eqn:Ee.
  - rewrite (dirs_on_path_self _ _ Hd Ee). simpl. unfold mkdir_p.
    subst fs0 s'. rewrite ?Ee, (dirs_on_path_rmtree _ _ Hd). destruct sources; reflexivity.
  - simpl. unfold mkdir_p. subst fs0 s'. rewrite ?Ee, Hd. destruct sources; reflexivity.
Qed.

Definition cwd_proj : path := ["home"; "u"; "proj"]%string.
Definition proj_main : path := ["home"; "u"; "proj"; "main.cpp"]%string.

Definition proj_fs : fsys :=
  [(["home"%string], {| e_dir := true; e_mtime := 1 |});
   (["home"; "u"]%string, {| e_dir := true; e_mtime := 1 |});
   (cwd_proj, {| e_dir := true; e_mtime := 1 |});
   (proj_main, {| e_dir := false; e_mtime := 1 |})].

(** C10 (counterexample): with [-b -o ../] the build folder is the parent of
    the working directory; the guard lets it through and the working
    directory's files are deleted. *)
Lemma C10_counterexample :
  o_build_folder (resolve_output cwd_proj proj_fs (Some "../"%string)) = ["home"; "u"]%string
  /\ path_eqb ["home"; "u"]%string cwd_proj = false
  /\ exists_ proj_fs proj_main = true
  /\ match clear_stage cwd_proj true [proj_main] ["home"; "u"]%string (st0 proj_fs) with
     | Ok _ s' => exists_ (st_fs s') proj_main = false
     | Exit _ _ => False
     end.
Proof. vm_compute. repeat split. Qed.

(** C10 (as amended): with [clear_output] set, a build folder equal to the
    working directory makes the script exit with code 1 before anything is
    deleted (the state is unchanged).  The guard tests equality only: a
    build folder that is a folder strictly above the working directory
    passes it, and afterwards nothing at or below the working directory
    exists any more; the script exits with code 0 or goes on, as for any
    other build folder. *)
Theorem C10_clear_guard (cwd : path) (sources : list path) (bf : path) (s : St) :
  (path_eqb bf cwd = true -> clear_stage cwd true sources bf s = Exit 1 s)
  /\ (is_prefix bf cwd = true -> path_eqb bf cwd = false ->
      is_dir (st_fs s) bf = true -> dirs_on_path (st_fs s) bf = true ->
      let s' := state_of (clear_stage cwd true sources bf s) in
      clear_stage cwd true sources bf s
        = match sources with [] => Exit 0 s' | _ :: _ => Ok tt s' end
      /\ forall q, is_prefix cwd q = true -> exists_ (st_fs s') q = false).
Proof.
  split; [intros Heq; unfold clear_stage; now rewrite Heq|].
  intros Hpre Hne Hdir Hd s'.
  pose proof (clear_stage_cleared cwd sources bf s Hne Hd) as E. cbv zeta in E.
  assert (Hex : exists_ (st_fs s) bf = true).
  { unfold is_dir, exists_ in *. destruct (lookup (st_fs s) bf); [reflexivity | discriminate]. }
  rewrite Hex in E.
  assert (Hs' : st_fs s' = mkdir_fold (rmtree (st_fs s) bf) bf (st_now s)).
  { subst s'. rewrite E. destruct sources; reflexivity. }
  split; [subst s'; rewrite E; destruct sources; reflexivity|].
  intros q Hq. unfold exists_. rewrite Hs', lookup_mkdir_fold, lookup_rmtree.
  rewrite (is_prefix_trans bf cwd q Hpre Hq).
  destruct (existsb (path_eqb q) (prefixes bf)) eqn:Ein; [|reflexivity].
  apply in_prefixes in Ein. apply is_prefix_length in Hq.
  pose proof (is_prefix_strict_length bf cwd Hpre Hne). lia.
Qed.

Lemma C10_clear_guard_witness :
  o_build_folder (resolve_output cwd_proj proj_fs None) = cwd_proj
  /\ clear_stage cwd_proj true [proj_main] cwd_proj (st0 proj_fs) = Exit 1 (st0 proj_fs)
  /\ exists_ (st_fs (state_of (clear_stage cwd_proj true [proj_main] ["home"; "u"]%string
                                 (st0 proj_fs)))) proj_main = false.
Proof.
  split; [reflexivity|]. split.
  - apply (proj1 (C10_clear_guard cwd_proj [proj_main] cwd_proj (st0 proj_fs))). reflexivity.
  - apply (proj2 (proj2 (C10_clear_guard cwd_proj [proj_main] ["home"; "u"]%string (st0 proj_fs))
                   eq_refl eq_refl eq_refl eq_refl)).
    reflexivity.
Defined.

(** * Further properties of the code *)

(** ** Matrix mode when every combination succeeds *)

Lemma matrix_flat_all_ok fc rc l :
  Forall (fun y => rc y = Some 0) l -> matrix_flat fc rc l = (l, None).
Proof.
  induction 1 as [|y l Hy Hl IH]; simpl; [reflexivity|]. now rewrite Hy, IH.
Qed.

Lemma matrix_flat_failure fc rc l r c :
  matrix_flat fc rc l = (r, Some c) -> exists x, In x l /\ rc x <> Some 0 /\ c = fc (rc x).
Proof.
  revert r. induction l as [|y l IH]; intros r H; simpl in H; [discriminate|].
  destruct (rc y) as [[|z|z]|] eqn:Ey.
  - destruct (matrix_flat fc rc l) as [r' [e|]] eqn:E; inversion H; subst.
    destruct (IH r' eq_refl) as (x & Hx & Hne & Hc). exists x. split; [now right | auto].
  - inversion H; subst. exists y. rewrite Ey. split; [now left|]. split; [discriminate|reflexivity].
  - inversion H; subst. exists y. rewrite Ey. split; [now left|]. split; [discriminate|reflexivity].
  - inversion H; subst. exists y. rewrite Ey. split; [now left|]. split; [discriminate|reflexivity].
Qed.

Lemma matrix_flat_none fc rc l r :
  matrix_flat fc rc l = (r, None) -> Forall (fun y => rc y = Some 0) l.
Proof.
  revert r. induction l as [|y l IH]; intros r H; simpl in H; [constructor|].
  destruct (rc y) as [[|z|z]|] eqn:Ey; try discriminate.
  destruct (matrix_flat fc rc l) as [r' [e|]] eqn:E; inversion H; subst.
  constructor; [exact Ey | exact (IH r' eq_refl)].
Qed.

Lemma matrix_flat_zero_iff fc rc l :
  (forall res, res <> Some 0 -> fc res <> 0) ->
  (Forall (fun y => rc y = Some 0) l
   <-> match snd (matrix_flat fc rc l) with Some c => c | None => 0 end = 0).
Proof.
  intros Hfc. split.
  - intros H. now rewrite matrix_flat_all_ok.
  - destruct (matrix_flat fc rc l) as [r [c|]] eqn:E; simpl.
    + apply matrix_flat_failure in E as (x & _ & Hne & ->). intros H.
      exfalso. exact (Hfc _ Hne H).
    + intros _. exact (matrix_flat_none fc rc l r E).
Qed.

(** Both matrix drivers exit with code 0 exactly when every
    (compiler, standard) combination's child returned 0, and then they have
    run every combination, compilers outer and standards inner. *)
Theorem matrix_exit_zero_iff_all_succeed (rc : string * string -> option Z)
    (compilers : list string) :
  (Forall (fun y => rc y = Some 0) (list_prod compilers standards)
     <-> snd (try_all rc compilers) = 0)
  /\ (Forall (fun y => rc y = Some 0) (list_prod compilers standards)
     <-> snd (test_all rc compilers) = 0)
  /\ (Forall (fun y => rc y = Some 0) (list_prod compilers standards) ->
      fst (try_all rc compilers) = list_prod compilers standards
      /\ fst (test_all rc compilers) = list_prod compilers standards).
Proof.
  unfold try_all, test_all. rewrite !matrix_outer_flat.
  split; [|split].
  - rewrite (matrix_flat_zero_iff (fun _ => 1) rc) by (intros; discriminate).
    destruct (matrix_flat _ rc _); reflexivity.
  - rewrite (matrix_flat_zero_iff (fun res => match res with Some c => c | None => 1 end) rc).
    + destruct (matrix_flat _ rc _); reflexivity.
    + intros [c|] Hne; [|discriminate]. intros ->. now apply Hne.
  - intros H. now rewrite !matrix_flat_all_ok.
Qed.

(** ** The [std] module entry (lines 463-464) *)

(** [modules = {"std": [std_module], **modules}] *)
Definition with_std_entry (std_module_ : string) (modules_ : list (string * list string))
    : list (string * list string) :=
  dict_update [("std"%string, [std_module_])] modules_.

Lemma dict_lookup_none_iff {V} k (d : list (string * V)) :
  dict_lookup k d = None <-> ~ In k (map fst d).
Proof.
  induction d as [|[k' v] d IH]; simpl; [tauto|].
  destruct (String.eqb_spec k k') as [->|Hk]; [split; [discriminate|tauto]|].
  rewrite IH. intuition.
Qed.

Lemma dict_lookup_rev {V} k (d : list (string * V)) :
  NoDup (map fst d) -> dict_lookup k (rev d) = dict_lookup k d.
Proof.
  induction d as [|[k' v] d IH]; intros Hnd; simpl; [reflexivity|].
  inversion Hnd as [|? ? Hnin Hnd']; subst.
  rewrite dict_lookup_app, IH by exact Hnd'. simpl.
  destruct (String.eqb_spec k k') as [->|Hk].
  - now rewrite (proj2 (dict_lookup_none_iff k' d) Hnin).
  - destruct (dict_lookup k d); reflexivity.
Qed.

Lemma keys_dict_set {V} k (v : V) d :
  map fst (dict_set k v d) =
  if existsb (String.eqb k) (map fst d) then map fst d else map fst d ++ [k].
Proof.
  induction d as [|[k' v'] d IH]; simpl; [reflexivity|].
  destruct (String.eqb_spec k k') as [->|Hk]; simpl; [reflexivity|].
  rewrite IH. destruct (existsb _ _); reflexivity.
Qed.

Lemma existsb_eqb_In k l : existsb (String.eqb k) l = true <-> In k l.
Proof.
  rewrite existsb_exists. split.
  - intros (x & Hx & E). apply String.eqb_eq in E. now subst.
  - intros H. exists k. split; [exact H | apply String.eqb_refl].
Qed.

Lemma keys_dict_update {V} (d e : list (string * V)) :
  NoDup (map fst e) ->
  map fst (dict_update d e) =
  map fst d ++ filter (fun k => negb (existsb (String.eqb k) (map fst d))) (map fst e).
Proof.
  unfold dict_update. revert d. induction e as [|[k v] e IH]; intros d Hnd; simpl.
  - now rewrite app_nil_r.
  - inversion Hnd as [|? ? Hnin Hnd']; subst.
    rewrite IH by exact Hnd'. rewrite keys_dict_set.
    destruct (existsb (String.eqb k) (map fst d)) eqn:Ek; simpl; [reflexivity|].
    rewrite <- app_assoc. simpl. f_equal. f_equal.
    apply filter_ext_in. intros x Hx. rewrite existsb_app. simpl.
    destruct (String.eqb_spec x k) as [->|Hxk]; [contradiction|].
    now rewrite orb_false_r.
Qed.

(** When the standard library module is in use, the modules dict starts with
    [std], followed by the other modules in their order; a [std] entry the
    user gave keeps its files, and every other module keeps its own. *)
Theorem std_entry_first (std_module_ : string) (modules_ : list (string * list string))
    (Hnd : NoDup (map fst modules_)) :
  map fst (with_std_entry std_module_ modules_) =
    "std"%string :: filter (fun k => negb (String.eqb k "std")) (map fst modules_)
  /\ forall k, dict_lookup k (with_std_entry std_module_ modules_) =
       match dict_lookup k modules_ with
       | Some v => Some v
       | None => if String.eqb k "std" then Some [std_module_] else None
       end.
Proof.
  unfold with_std_entry. split.
  - rewrite keys_dict_update by exact Hnd. simpl. f_equal.
    apply filter_ext. intros x. now rewrite orb_false_r.
  - intros k. rewrite dict_lookup_update, dict_lookup_rev by exact Hnd. reflexivity.
Qed.

Lemma std_entry_first_witness :
  with_std_entry "/llvm/std.cppm" [("m"%string, ["a.ixx"%string]); ("std"%string, ["my.cppm"%string])]
    = [("std"%string, ["my.cppm"%string]); ("m"%string, ["a.ixx"%string])]
  /\ dict_lookup "std" (with_std_entry "/llvm/std.cppm"
                          [("m"%string, ["a.ixx"%string]); ("std"%string, ["my.cppm"%string])])
     = Some ["my.cppm"%string].
Proof.
  split; [reflexivity|].
  rewrite (proj2 (std_entry_first "/llvm/std.cppm"
                   [("m"%string, ["a.ixx"%string]); ("std"%string, ["my.cppm"%string])]
                   ltac:(repeat constructor; simpl; intuition discriminate))).
  reflexivity.
Defined.

(** ** Locating the LLVM [std] module (lines 183-197) *)

Definition is_digit (c : ascii) : bool :=
  (48 <=? nat_of_ascii c)%nat && (nat_of_ascii c <=? 57)%nat.

(** [int()] of a run of ASCII digits. *)
Definition digits_value (ds : list ascii) : Z :=
  fold_left (fun acc c => acc * 10 + (Z.of_nat (nat_of_ascii c) - 48)) ds 0.

(** The greedy digit groups separated by dots of the version pattern, after
    its first digit: [cur] is the group being read, [acc] the groups read
    before it. *)
Fixpoint version_groups (l : list ascii) (cur : list ascii) (acc : list (list ascii))
    : list (list ascii) :=
  match l with
  | c :: l' =>
      if is_digit c then version_groups l' (cur ++ [c]) acc
      else if Ascii.eqb c "."%char then
        match l' with
        | d :: _ => if is_digit d then version_groups l' [] (acc ++ [cur]) else acc ++ [cur]
        | [] => acc ++ [cur]
        end
      else acc ++ [cur]
  | [] => acc ++ [cur]
  end.

Definition llvm_prefix : list ascii := list_ascii_of_string "/llvm".

(** The pattern of line 185 tried at the start of [l]: [/llvm], a dash or
    a slash, then a version of digit groups separated by dots. *)
Definition match_at (l : list ascii) : option (list Z) :=
  if list_eq_dec ascii_dec (firstn 5 l) llvm_prefix then
    match skipn 5 l with
    | c :: d :: r =>
        if (Ascii.eqb c "-"%char || Ascii.eqb c "/"%char) && is_digit d
        then Some (map digits_value (version_groups r [d] []))
        else None
    | _ => None
    end
  else None.

(** [re.search]: the leftmost position where the pattern matches. *)
Fixpoint search_version (l : list ascii) : option (list Z) :=
  match match_at l with
  | Some v => Some v
  | None => match l with [] => None | _ :: l' => search_version l' end
  end.

Definition parse_llvm_version (path_str : string) : option (list Z) :=
  search_version (list_ascii_of_string path_str).

(** Python's ordering of tuples of integers. *)
Fixpoint tuple_ltb (a b : list Z) : bool :=
  match a, b with
  | [], [] => false
  | [], _ :: _ => true
  | _ :: _, [] => false
  | x :: a', y :: b' => if x <? y then true else if y <? x then false else tuple_ltb a' b'
  end.

(** The key [parse_llvm_version(p) or (0,)]. *)
Definition llvm_key (p : string) : list Z :=
  match parse_llvm_version p with Some v => v | None => [0] end.

(** [max(xs, key=key)]: an element replaces the best so far only when its
    key is greater. *)
Fixpoint max_by {A} (key : A -> list Z) (best : A) (xs : list A) : A :=
  match xs with
  | [] => best
  | y :: xs' => max_by key (if tuple_ltb (key best) (key y) then y else best) xs'
  end.

(** [str.isspace] on a character. *)
Definition is_space (c : ascii) : bool :=
  let n := nat_of_ascii c in
  ((9 <=? n) && (n <=? 13) || (28 <=? n) && (n <=? 32) || (n =? 133) || (n =? 160))%nat.

Definition nonblank (line : string) : bool :=
  negb (forallb is_space (list_ascii_of_string line)).

(** [get_llvm_std_module] from the lines of the output of [find]. *)
Definition get_llvm_std_module (lines : list string) : option string :=
  match filter nonblank lines with
  | [] => None
  | x :: xs => Some (max_by llvm_key x xs)
  end.

Lemma tuple_ltb_irrefl a : tuple_ltb a a = false.
Proof. induction a as [|x a IH]; simpl; [reflexivity|]. now rewrite Z.ltb_irrefl. Qed.

Lemma tuple_ltb_trans a b c :
  tuple_ltb a b = true -> tuple_ltb b c = true -> tuple_ltb a c = true.
Proof.
  revert b c. induction a as [|x a IH]; intros [|y b] [|z c]; simpl; try discriminate; auto.
  intros Hab Hbc.
  destruct (Z.ltb_spec x y), (Z.ltb_spec y x), (Z.ltb_spec y z), (Z.ltb_spec z y),
           (Z.ltb_spec x z), (Z.ltb_spec z x); try discriminate; try reflexivity;
    try lia; eauto.
Qed.

Lemma tuple_ltb_total a b : tuple_ltb a b = false -> tuple_ltb b a = false -> a = b.
Proof.
  revert b. induction a as [|x a IH]; intros [|y b]; simpl; try discriminate; auto.
  intros Hab Hba.
  destruct (Z.ltb_spec x y), (Z.ltb_spec y x); try discriminate; try lia.
  f_equal; [lia | auto].
Qed.

Lemma tuple_ltb_not_lt_lt a b c :
  tuple_ltb a b = false -> tuple_ltb a c = true -> tuple_ltb b c = true.
Proof.
  intros H1 H2. destruct (tuple_ltb b a) eqn:E.
  - eapply tuple_ltb_trans; eauto.
  - now rewrite <- (tuple_ltb_total a b H1 E).
Qed.

Lemma max_by_spec {A} (key : A -> list Z) xs :
  forall seen best pre post,
  seen = pre ++ best :: post ->
  Forall (fun z => tuple_ltb (key z) (key best) = true) pre ->
  Forall (fun z => tuple_ltb (key best) (key z) = false) seen ->
  exists pre' post',
    seen ++ xs = pre' ++ max_by key best xs :: post'
    /\ Forall (fun z => tuple_ltb (key z) (key (max_by key best xs)) = true) pre'
    /\ Forall (fun z => tuple_ltb (key (max_by key best xs)) (key z) = false) (seen ++ xs).
Proof.
  induction xs as [|y xs IH]; intros seen best pre post Hs Hpre Hall; simpl.
  - exists pre, post. rewrite app_nil_r. auto.
  - replace (seen ++ y :: xs) with ((seen ++ [y]) ++ xs) by now rewrite <- app_assoc.
    destruct (tuple_ltb (key best) (key y)) eqn:Eby.
    + apply (IH (seen ++ [y]) y seen []); [reflexivity| |].
      * subst seen. apply Forall_app. split.
        -- eapply Forall_impl; [|exact Hpre]. intros z Hz. exact (tuple_ltb_trans _ _ _ Hz Eby).
        -- constructor; [exact Eby|].
           apply Forall_app in Hall as [_ Hpost]. inversion Hpost; subst.
           eapply Forall_impl; [|eassumption]. intros z Hz.
           exact (tuple_ltb_not_lt_lt _ _ _ Hz Eby).
      * apply Forall_app. split; [|constructor; [apply tuple_ltb_irrefl | constructor]].
        eapply Forall_impl; [|exact Hall]. intros z Hz. cbv beta in Hz |- *.
        destruct (tuple_ltb (key y) (key z)) eqn:Eyz; [|reflexivity].
        rewrite (tuple_ltb_trans _ _ _ Eby Eyz) in Hz. discriminate.
    + apply (IH (seen ++ [y]) best pre (post ++ [y])).
      * subst seen. now rewrite <- app_assoc.
      * exact Hpre.
      * apply Forall_app. split; [exact Hall | constructor; [exact Eby | constructor]].
Qed.

(** The chosen [std.cppm] is one of the non-blank lines; no non-blank line
    has a greater LLVM version, and every line listed before it has a
    smaller one (the first of the latest versions is kept). *)
Theorem llvm_std_module_latest (lines : list string) (r : string)
    (H : get_llvm_std_module lines = Some r) :
  In r lines /\ nonblank r = true
  /\ (forall y, In y lines -> nonblank y = true -> tuple_ltb (llvm_key r) (llvm_key y) = false)
  /\ exists pre post, filter nonblank lines = pre ++ r :: post
       /\ Forall (fun y => tuple_ltb (llvm_key y) (llvm_key r) = true) pre.
Proof.
  unfold get_llvm_std_module in H.
  destruct (filter nonblank lines) as [|x xs] eqn:Ef; [discriminate|].
  injection H as <-.
  destruct (max_by_spec llvm_key xs [x] x [] [] eq_refl (Forall_nil _)
              (Forall_cons _ (tuple_ltb_irrefl _) (Forall_nil _)))
    as (pre & post & Hsplit & Hpre & Hall).
  simpl in Hsplit.
  assert (Hin : In (max_by llvm_key x xs) (filter nonblank lines)).
  { rewrite Ef, Hsplit. apply in_or_app. right. now left. }
  apply filter_In in Hin as [Hin Hnb].
  split; [exact Hin|]. split; [exact Hnb|]. split.
  - intros y Hy Hny. rewrite Forall_forall in Hall. apply Hall.
    assert (Hyf : In y (x :: xs)) by (rewrite <- Ef; apply filter_In; auto). exact Hyf.
  - exists pre, post. split; [exact Hsplit | exact Hpre].
Qed.

Definition llvm_lines : list string :=
  ["/usr/lib/llvm-17/share/libc++/v1/std.cppm"; "  ";
   "/usr/lib/llvm-18/share/libc++/v1/std.cppm";
   "/usr/lib/llvm-9/share/libc++/v1/std.cppm"]%string.

Lemma llvm_std_module_latest_witness :
  get_llvm_std_module llvm_lines = Some "/usr/lib/llvm-18/share/libc++/v1/std.cppm"%string
  /\ llvm_key "/usr/lib/llvm-18/share/libc++/v1/std.cppm" = [18]
  /\ In "/usr/lib/llvm-18/share/libc++/v1/std.cppm"%string llvm_lines.
Proof.
  split; [reflexivity|]. split; [reflexivity|].
  exact (proj1 (llvm_std_module_latest llvm_lines _ eq_refl)).
Defined.

(** ** Clearing and creating the build folder (lines 432-449) *)

(** With [-b] and a build folder other than the working directory: when
    no file is in the way of the folder (the folder itself and the folders
    above it are folders where they exist), the build folder and everything
    below it are removed, and the folder is created again, empty; every file
    or folder outside it is kept; the script then exits with code 0 when no
    source file was given, and goes on otherwise.  When a file is in the way
    ([shutil.rmtree] or [mkdir] raising), the script exits with code 1. *)
Theorem clear_output_empties_folder (cwd : path) (sources : list path) (folder : path) (s : St)
    (Hne : path_eqb folder cwd = false) (Hcl : closed (st_fs s) = true) :
  (dirs_on_path (st_fs s) folder = true ->
   let s' := state_of (clear_stage cwd true sources folder s) in
   lookup (st_fs s') folder = Some {| e_dir := true; e_mtime := st_now s |}
   /\ (forall q, is_prefix folder q = true -> q <> folder -> lookup (st_fs s') q = None)
   /\ (forall q e, is_prefix folder q = false -> lookup (st_fs s) q = Some e ->
         lookup (st_fs s') q = Some e)
   /\ clear_stage cwd true sources folder s
      = match sources with [] => Exit 0 s' | _ :: _ => Ok tt s' end)
  /\ (dirs_on_path (st_fs s) folder = false ->
      exists s', clear_stage cwd true sources folder s = Exit 1 s').
Proof.
  split.
  2:{ intros Hd. unfold clear_stage. rewrite Hne.
      destruct (exists_ (st_fs s) folder && negb (is_dir (st_fs s) folder)) eqn:Eg;
        [eexists; reflexivity|].
      unfold mkdir_p.
      destruct (exists_ (st_fs s) folder) eqn:Ee.
      - simpl in Eg. apply negb_false_iff in Eg.
        assert (Hr : dirs_on_path (rmtree (st_fs s) folder) folder = false).
        { apply not_true_is_false. intros Hr. apply not_true_iff_false in Hd. apply Hd.
          unfold dirs_on_path in *. rewrite forallb_forall in Hr |- *. intros q Hq.
          specialize (Hr q Hq). unfold exists_, is_dir in Hr. rewrite lookup_rmtree in Hr.
          destruct (is_prefix folder q) eqn:Eq.
          - rewrite (prefix_of_prefix folder q Hq Eq), Eg. apply implb_true_r.
          - exact Hr. }
        rewrite Hr. eexists; reflexivity.
      - rewrite Hd. eexists; reflexivity. }
  intros Hd s'.
  pose proof (clear_stage_cleared cwd sources folder s Hne Hd) as E. cbv zeta in E.
  set (fs0 := if exists_ (st_fs s) folder then rmtree (st_fs s) folder else st_fs s) in E.
  assert (Hfs : st_fs s' = mkdir_fold fs0 folder (st_now s)).
  { subst s'. rewrite E. now destruct sources. }
  assert (Hrm : forall q, lookup fs0 q = if is_prefix folder q then None else lookup (st_fs s) q).
  { intros q. subst fs0. destruct (exists_ (st_fs s) folder) eqn:Ee; [apply lookup_rmtree|].
    destruct (is_prefix folder q) eqn:Eq; [|reflexivity].
    destruct (is_prefix_app folder q Eq) as [r ->].
    pose proof (closed_subtree (st_fs s) folder r Hcl Ee) as Hr.
    unfold exists_ in Hr. destruct (lookup (st_fs s) (folder ++ r)); [discriminate | reflexivity]. }
  split; [|split; [|split]].
  - rewrite Hfs, lookup_mkdir_fold, Hrm, is_prefix_refl, self_in_prefixes. reflexivity.
  - intros q Hq Hqf. rewrite Hfs, lookup_mkdir_fold, Hrm, Hq, below_not_in_prefixes by assumption.
    reflexivity.
  - intros q e Hq He. rewrite Hfs, lookup_mkdir_fold, Hrm, Hq, He. reflexivity.
  - subst s'. rewrite E. destruct sources; reflexivity.
Qed.

(** Without [-b], the build folder is created when missing and nothing that
    existed is changed, as long as no file is in the way of the folder;
    otherwise ([mkdir] raising) the script exits with code 1. *)
Theorem no_clear_keeps_everything (cwd : path) (sources : list path) (folder : path) (s : St) :
  (dirs_on_path (st_fs s) folder = true ->
   exists s', clear_stage cwd false sources folder s = Ok tt s'
   /\ is_dir (st_fs s') folder = true
   /\ forall q e, lookup (st_fs s) q = Some e -> lookup (st_fs s') q = Some e)
  /\ (dirs_on_path (st_fs s) folder = false ->
      clear_stage cwd false sources folder s = Exit 1 s).
Proof.
  split; intros Hd; unfold clear_stage, mkdir_p; rewrite Hd; [|reflexivity].
  eexists. split; [reflexivity|]. simpl. split.
  - unfold is_dir. rewrite lookup_mkdir_fold, self_in_prefixes.
    destruct (lookup (st_fs s) folder) as [e|] eqn:El; [|reflexivity].
    assert (Hx : exists_ (st_fs s) folder = true) by (unfold exists_; now rewrite El).
    pose proof (dirs_on_path_self _ _ Hd Hx) as Hi. unfold is_dir in Hi. now rewrite El in Hi.
  - intros q e He. rewrite lookup_mkdir_fold, He. reflexivity.
Qed.

Definition clear_fs : fsys :=
  [([], {| e_dir := true; e_mtime := 1 |});
   (["home"%string], {| e_dir := true; e_mtime := 1 |});
   (["home"; "u"]%string, {| e_dir := true; e_mtime := 1 |});
   (cwd_proj, {| e_dir := true; e_mtime := 1 |});
   (proj_main, {| e_dir := false; e_mtime := 2 |});
   (cwd_proj ++ ["build"%string], {| e_dir := true; e_mtime := 3 |});
   (cwd_proj ++ ["build"; "old.o"]%string, {| e_dir := false; e_mtime := 4 |})].

Lemma clear_output_empties_folder_witness :
  lookup (st_fs (state_of (clear_stage cwd_proj true [] (cwd_proj ++ ["build"%string]) (st0 clear_fs))))
    (cwd_proj ++ ["build"; "old.o"]%string) = None
  /\ lookup (st_fs (state_of (clear_stage cwd_proj true [] (cwd_proj ++ ["build"%string]) (st0 clear_fs))))
       proj_main = Some {| e_dir := false; e_mtime := 2 |}
  /\ exists s', clear_stage cwd_proj true [] proj_main (st0 clear_fs) = Exit 1 s'.
Proof.
  destruct (proj1 (clear_output_empties_folder cwd_proj [] (cwd_proj ++ ["build"%string]) (st0 clear_fs)
              eq_refl eq_refl) eq_refl) as (_ & Hbelow & Hout & _).
  split; [|split].
  - apply Hbelow; [reflexivity | discriminate].
  - apply Hout; reflexivity.
  - exact (proj2 (clear_output_empties_folder cwd_proj [] proj_main (st0 clear_fs)
                    eq_refl eq_refl) eq_refl).
Defined.

Lemma no_clear_keeps_everything_witness :
  (exists s', clear_stage cwd_proj false [proj_main] (cwd_proj ++ ["build"%string]) (st0 proj_fs) = Ok tt s'
   /\ is_dir (st_fs s') (cwd_proj ++ ["build"%string]) = true)
  /\ clear_stage cwd_proj false [proj_main] (proj_main ++ ["build"%string]) (st0 proj_fs)
     = Exit 1 (st0 proj_fs).
Proof.
  split.
  - destruct (proj1 (no_clear_keeps_everything cwd_proj [proj_main] (cwd_proj ++ ["build"%string])
                       (st0 proj_fs)) eq_refl) as (s' & E & D & _).
    exists s'. split; [exact E | exact D].
  - exact (proj2 (no_clear_keeps_everything cwd_proj [proj_main] (proj_main ++ ["build"%string])
                    (st0 proj_fs)) eq_refl).
Defined.

(** ** The output path handed to a module build *)

(** [str()] of a resolved, absolute path. *)
Definition render (p : path) : string :=
  String.concat "" (map (fun x => "/" ++ x)%string p).

(** A component of a resolved path: not empty, not [.] or [..], without a
    slash, not ending in a backslash. *)
Definition component_ok (x : string) : bool :=
  negb (String.eqb x "") && negb (String.eqb x ".") && negb (String.eqb x "..")
  && forallb (fun c => negb (Ascii.eqb c "/"%char)) (list_ascii_of_string x)
  && negb (ends_with_sep x).

Lemma list_ascii_of_string_app (a b : string) :
  list_ascii_of_string (a ++ b) = list_ascii_of_string a ++ list_ascii_of_string b.
Proof. induction a as [|c a IH]; simpl; [reflexivity|]. now rewrite IH. Qed.

Lemma str_app_nil_r (a : string) : (a ++ "")%string = a.
Proof. induction a as [|c a IH]; simpl; [reflexivity|]. now rewrite IH. Qed.

Lemma concat_empty_sep (l : list string) :
  String.concat "" l = fold_right String.append ""%string l.
Proof.
  induction l as [|x l IH]; [reflexivity|].
  destruct l as [|y l]; simpl; [symmetry; apply str_app_nil_r|].
  simpl in IH. now rewrite IH.
Qed.

Lemma render_chars p :
  list_ascii_of_string (render p)
  = flat_map (fun x => "/"%char :: list_ascii_of_string x) p.
Proof.
  unfold render. rewrite concat_empty_sep.
  induction p as [|x p IH]; [reflexivity|]. cbn [map fold_right flat_map].
  rewrite list_ascii_of_string_app, IH. reflexivity.
Qed.

Lemma split_aux_no_sep c a l cur :
  forallb (fun x => negb (Ascii.eqb x c)) a = true ->
  split_aux c (a ++ l) cur = split_aux c l (rev a ++ cur).
Proof.
  revert cur. induction a as [|x a IH]; intros cur H; simpl; [reflexivity|].
  simpl in H. apply andb_true_iff in H as [Hx Ha].
  destruct (Ascii.eqb x c); [discriminate|]. rewrite IH by exact Ha.
  now rewrite <- app_assoc.
Qed.

Lemma split_render p cur :
  forallb component_ok p = true ->
  split_aux "/"%char (flat_map (fun x => "/"%char :: list_ascii_of_string x) p) cur
  = string_of_list_ascii (rev cur) :: p.
Proof.
  revert cur. induction p as [|x p IH]; intros cur H; simpl; [reflexivity|].
  apply andb_true_iff in H as [Hx Hp]. f_equal.
  rewrite split_aux_no_sep.
  - rewrite IH by exact Hp. rewrite app_nil_r, rev_involutive, string_of_list_ascii_of_string.
    reflexivity.
  - unfold component_ok in Hx. repeat (apply andb_true_iff in Hx as [Hx ?]). assumption.
Qed.

Lemma normalize_ok acc p : forallb component_ok p = true -> normalize acc p = acc ++ p.
Proof.
  revert acc. induction p as [|x p IH]; intros acc H; simpl; [now rewrite app_nil_r|].
  apply andb_true_iff in H as [Hx Hp]. unfold component_ok in Hx.
  destruct (String.eqb x ""), (String.eqb x "."), (String.eqb x ".."); try discriminate.
  simpl. rewrite IH by exact Hp. now rewrite <- app_assoc.
Qed.

Lemma ends_with_sep_render p x :
  x <> ""%string -> ends_with_sep (render (p ++ [x])) = ends_with_sep x.
Proof.
  intros Hx. unfold ends_with_sep. rewrite render_chars, flat_map_app. simpl.
  rewrite app_nil_r, rev_app_distr. simpl.
  destruct x as [|c x]; [contradiction|]. simpl.
  destruct (rev (list_ascii_of_string x)); reflexivity.
Qed.

(** The path a module build is told to write with [--output=] (line 252) is
    taken by the child as its binary path, and its folder as the build
    folder (lines 407-429); the child's binary name (lines 530-536) is then
    that path, whatever its own settings: the child writes the very file the
    parent checks for staleness. *)
Theorem module_output_round_trip (cwd : path) (fs : fsys) (o : path)
    (Hne : o <> []) (Hok : forallb component_ok o = true) (Hdir : is_dir fs o = false) :
  resolve_output cwd fs (Some (render o))
  = {| o_build_folder := removelast o; o_binary_path := Some o; o_auto_binary := false |}
  /\ forall windows am sources sfx ext,
       derive_binary_path windows am sources sfx ext (resolve_output cwd fs (Some (render o)))
       = Val o.
Proof.
  assert (Hres : resolve cwd (render o) = o).
  { unfold resolve, split_on. rewrite render_chars, split_render by exact Hok.
    destruct o as [|x o]; [contradiction|].
    assert (Hs : starts_with_slash (render (x :: o)) = true).
    { pose proof (render_chars (x :: o)) as H.
      destruct (render (x :: o)) as [|c r]; simpl in H; [discriminate|].
      injection H as -> _. reflexivity. }
    rewrite Hs. transitivity (normalize [] (x :: o)); [reflexivity|]. now rewrite normalize_ok. }
  assert (Hsep : ends_with_sep (render o) = false).
  { destruct (exists_last Hne) as (p & x & ->).
    rewrite forallb_app in Hok. apply andb_true_iff in Hok as [_ Hx]. simpl in Hx.
    rewrite andb_true_r in Hx. unfold component_ok in Hx.
    repeat (apply andb_true_iff in Hx as [Hx ?]).
    rewrite ends_with_sep_render.
    - now apply negb_true_iff.
    - intros ->. discriminate. }
  assert (Hro : resolve_output cwd fs (Some (render o))
                = {| o_build_folder := removelast o; o_binary_path := Some o;
                     o_auto_binary := false |}).
  { unfold resolve_output. rewrite Hres, Hsep, Hdir. reflexivity. }
  split; [exact Hro|]. intros. rewrite Hro. reflexivity.
Qed.

Lemma module_output_round_trip_witness :
  render mod_out_m = "/build/m_module_debug-gcc-cpp20.o"%string
  /\ resolve_output cwd_proj fresh_fs (Some (render mod_out_m))
     = {| o_build_folder := ["build"%string]; o_binary_path := Some mod_out_m;
          o_auto_binary := false |}.
Proof.
  split; [reflexivity|].
  exact (proj1 (module_output_round_trip cwd_proj fresh_fs mod_out_m
                  ltac:(discriminate) eq_refl eq_refl)).
Defined.

(** ** The command of a module build (lines 247-270) *)

(** What [compile_module] reads besides its arguments. *)
Record ModCtx := {
  mc_exe : string;
  mc_script : string;
  mc_compiler : string;
  mc_arch : string;
  mc_std : string;
  mc_type : string;
  mc_define : list string;
  mc_include : list string;
  mc_flag : list string;
  mc_std_module : option string;
  mc_verbose : bool;
  mc_disable_exceptions : bool
}.

Definition gcc_std_path : string := "bits/std.cc".

Definition module_command (ctx : ModCtx) (name module_file output_ : string) : list string :=
  let gcc_std := String.eqb (mc_compiler ctx) "g++" && String.eqb name "std" in
  [mc_exe ctx; mc_script ctx;
   if gcc_std then gcc_std_path else module_file;
   "--output=" ++ output_; "--arch=" ++ mc_arch ctx; "--compiler=" ++ mc_compiler ctx;
   "--std=" ++ mc_std ctx; "--type=" ++ mc_type ctx]%string
  ++ map (fun d => "--define=" ++ d)%string (mc_define ctx)
  ++ map (fun i => "--include=" ++ i)%string (mc_include ctx)
  ++ map (fun f => "--flag=" ++ f)%string (mc_flag ctx)
  ++ (if gcc_std then ["--flag=-fsearch-include-path"%string] else [])
  ++ (if String.eqb name "std" then ["--std-module=disable"%string]
      else match mc_std_module ctx with
           | Some sm => [("--std-module=" ++ sm)%string]
           | None => []
           end)
  ++ ["--as-module"%string]
  ++ (if mc_verbose ctx then ["--verbose"%string] else [])
  ++ [if mc_disable_exceptions ctx then "--disable-exceptions=true"%string
      else "--disable-exceptions=false"%string].

(** The value of the last [--std-module=] option, as [argparse] keeps it. *)
Definition last_opt (pre : string) (args : list string) : option string :=
  fold_left (fun acc a =>
               if String.prefix pre a
               then Some (substring (String.length pre) (String.length a - String.length pre) a)
               else acc) args None.

(** Line 461. *)
Definition use_std_module_of (std_module_ : option string) (std_ : string) : bool :=
  negb (match std_module_ with None => true | Some v => String.eqb v "disable" end
        || negb (String.eqb std_ "c++23")).

Lemma last_opt_acc pre args acc :
  fold_left (fun acc a =>
               if String.prefix pre a
               then Some (substring (String.length pre) (String.length a - String.length pre) a)
               else acc) args acc
  = match last_opt pre args with Some v => Some v | None => acc end.
Proof.
  unfold last_opt. revert acc.
  induction args as [|a args IH]; intros acc; simpl; [reflexivity|].
  rewrite (IH (if String.prefix pre a then _ else acc)), (IH (if String.prefix pre a then _ else None)).
  destruct (fold_left _ args None); [reflexivity|]. now destruct (String.prefix pre a).
Qed.

Lemma last_opt_app pre l1 l2 :
  last_opt pre (l1 ++ l2) = match last_opt pre l2 with Some v => Some v | None => last_opt pre l1 end.
Proof. unfold last_opt at 1. rewrite fold_left_app. apply last_opt_acc. Qed.

Lemma last_opt_none pre l :
  Forall (fun a => String.prefix pre a = false) l -> last_opt pre l = None.
Proof.
  intros H. induction H as [|a l Ha Hl IH]; [reflexivity|].
  change (a :: l) with ([a] ++ l). rewrite last_opt_app, IH.
  unfold last_opt. simpl. now rewrite Ha.
Qed.

Lemma no_dash_no_std_module (x : string) :
  String.prefix "-" x = false -> String.prefix "--std-module=" x = false.
Proof.
  destruct x as [|c x]; [reflexivity|]. intros H. cbn [String.prefix] in H |- *.
  destruct (ascii_dec "-" c); [|reflexivity]. destruct x; discriminate.
Qed.

Lemma prefixed_map (p : string) l :
  String.prefix "--std-module=" p = false ->
  (forall x, String.prefix "--std-module=" (p ++ x) = false) ->
  Forall (fun a => String.prefix "--std-module=" a = false) (map (fun x => p ++ x)%string l).
Proof.
  intros _ H. apply Forall_forall. intros a Ha. apply in_map_iff in Ha as (x & <- & _). apply H.
Qed.

Lemma substring_all (x : string) : substring 0 (String.length x) x = x.
Proof. induction x as [|c x IH]; simpl; [reflexivity|]. now rewrite IH. Qed.

Lemma last_opt_std_module (sm : string) :
  last_opt "--std-module=" [("--std-module=" ++ sm)%string] = Some sm.
Proof.
  unfold last_opt. simpl.
  replace (String.prefix "" sm) with true by (destruct sm; reflexivity).
  now rewrite Nat.sub_0_r, substring_all.
Qed.

Lemma module_command_head_none ctx name module_file output_ :
  String.prefix "-" (mc_exe ctx) = false -> String.prefix "-" (mc_script ctx) = false ->
  String.prefix "-" module_file = false ->
  last_opt "--std-module="
    ([mc_exe ctx; mc_script ctx;
      if String.eqb (mc_compiler ctx) "g++" && String.eqb name "std" then gcc_std_path
      else module_file;
      "--output=" ++ output_; "--arch=" ++ mc_arch ctx; "--compiler=" ++ mc_compiler ctx;
      "--std=" ++ mc_std ctx; "--type=" ++ mc_type ctx]%string
     ++ map (fun d => "--define=" ++ d)%string (mc_define ctx)
     ++ map (fun i => "--include=" ++ i)%string (mc_include ctx)
     ++ map (fun f => "--flag=" ++ f)%string (mc_flag ctx)
     ++ (if String.eqb (mc_compiler ctx) "g++" && String.eqb name "std"
         then ["--flag=-fsearch-include-path"%string] else [])) = None.
Proof.
  intros He Hs Hf. apply last_opt_none.
  apply Forall_app; split.
  { apply Forall_cons; [now apply no_dash_no_std_module|].
    apply Forall_cons; [now apply no_dash_no_std_module|].
    apply Forall_cons.
    { destruct (_ && _); [reflexivity | now apply no_dash_no_std_module]. }
    repeat (apply Forall_cons; [reflexivity|]). apply Forall_nil. }
  apply Forall_app; split; [apply prefixed_map; reflexivity|].
  apply Forall_app; split; [apply prefixed_map; reflexivity|].
  apply Forall_app; split; [apply prefixed_map; reflexivity|].
  destruct (_ && _); [apply Forall_cons; [reflexivity | apply Forall_nil] | apply Forall_nil].
Qed.

(** The [std] module is built by a child told [--as-module] and
    [--std-module=disable], so that the child does not use the [std] module
    itself; any other module's child gets the parent's [--std-module]
    setting, if there is one.  This holds when the interpreter, the script
    and the module file are not written as options (they do not start with
    a dash). *)
Theorem module_command_std_module (ctx : ModCtx) (name module_file output_ : string)
    (He : String.prefix "-" (mc_exe ctx) = false)
    (Hs : String.prefix "-" (mc_script ctx) = false)
    (Hf : String.prefix "-" module_file = false) :
  In "--as-module"%string (module_command ctx name module_file output_)
  /\ last_opt "--std-module=" (module_command ctx name module_file output_)
     = (if String.eqb name "std" then Some "disable"%string else mc_std_module ctx)
  /\ (name = "std"%string ->
      use_std_module_of (last_opt "--std-module=" (module_command ctx name module_file output_))
        (mc_std ctx) = false).
Proof.
  assert (Hlast : last_opt "--std-module=" (module_command ctx name module_file output_)
                  = (if String.eqb name "std" then Some "disable"%string else mc_std_module ctx)).
  { unfold module_command. cbv zeta. rewrite !app_assoc, last_opt_app.
    rewrite (last_opt_none _ [if mc_disable_exceptions ctx then _ else _])
      by (apply Forall_cons; [destruct (mc_disable_exceptions ctx); reflexivity | apply Forall_nil]).
    rewrite last_opt_app.
    rewrite (last_opt_none _ (if mc_verbose ctx then _ else _))
      by (destruct (mc_verbose ctx); [apply Forall_cons; [reflexivity | apply Forall_nil]
                                     | apply Forall_nil]).
    rewrite last_opt_app.
    rewrite (last_opt_none _ ["--as-module"%string])
      by (apply Forall_cons; [reflexivity | apply Forall_nil]).
    rewrite last_opt_app.
    rewrite <- !app_assoc, (module_command_head_none ctx name module_file output_ He Hs Hf).
    destruct (String.eqb name "std"); [reflexivity|].
    destruct (mc_std_module ctx) as [sm|]; [|reflexivity].
    now rewrite last_opt_std_module. }
  split; [|split; [exact Hlast|]].
  - unfold module_command. cbv zeta. rewrite !in_app_iff. do 6 right. left. now left.
  - intros ->. rewrite Hlast. reflexivity.
Qed.

Lemma module_command_std_module_witness :
  let ctx := {| mc_exe := "/usr/bin/python3"; mc_script := "/w/scripts/compile_cpp.py";
                mc_compiler := "clang++"; mc_arch := "amd64"; mc_std := "c++23";
                mc_type := "debug"; mc_define := ["X=1"%string]; mc_include := [];
                mc_flag := ["-Wall"%string]; mc_std_module := Some "/llvm/std.cppm"%string;
                mc_verbose := false; mc_disable_exceptions := false |} in
  last_opt "--std-module=" (module_command ctx "std" "/llvm/std.cppm" "/b/std.pcm")
    = Some "disable"%string
  /\ last_opt "--std-module=" (module_command ctx "m" "/w/m.ixx" "/b/m.pcm")
    = Some "/llvm/std.cppm"%string.
Proof.
  intros ctx. split.
  - exact (proj1 (proj2 (module_command_std_module ctx "std" "/llvm/std.cppm" "/b/std.pcm"
                           eq_refl eq_refl eq_refl))).
  - exact (proj1 (proj2 (module_command_std_module ctx "m" "/w/m.ixx" "/b/m.pcm"
                           eq_refl eq_refl eq_refl))).
Defined.

(** ** Choosing the compiler (lines 343-365) *)

(** [find_vs_path() is not None]: only on Windows, when an installation is
    reported. *)
Definition find_vs (system : string) (vs_installed : bool) : bool :=
  String.eqb system "Windows" && vs_installed.

(** Lines 343-363: the compiler, [""] when none is found. *)
Definition compiler_choice (arg : option string) (system : string)
    (vs_found vs_exists clang gpp : bool) : string :=
  match arg with
  | Some c => c
  | None =>
      if String.eqb system "Windows" then
        if vs_found && vs_exists then "cl"
        else if clang then "clang++"
        else if gpp then "g++" else ""
      else if String.eqb system "Linux" then
        if gpp then "g++" else if clang then "clang++" else ""
      else if String.eqb system "Darwin" && clang then "clang++"
      else ""
  end.

(** Lines 364-365: [None] is the exit on an empty compiler name. *)
Definition select_compiler (arg : option string) (system : string)
    (vs_found vs_exists clang gpp : bool) : option string :=
  let c := compiler_choice arg system vs_found vs_exists clang gpp in
  if String.eqb c "" then None else Some c.

(** Without [-c], the compiler chosen is one the matrix mode would also try
    on the same machine, and a compiler is only ever chosen on Windows,
    Linux or macOS. *)
Theorem auto_compiler_in_matrix (system : string) (vs_installed vs_exists clang gpp : bool)
    (c : string)
    (H : select_compiler None system (find_vs system vs_installed) vs_exists clang gpp = Some c) :
  In c (detect_compilers (find_vs system vs_installed) clang gpp (String.eqb system "Darwin"))
  /\ (system = "Windows"%string \/ system = "Linux"%string \/ system = "Darwin"%string).
Proof.
  unfold select_compiler, compiler_choice, find_vs, detect_compilers in *.
  destruct (String.eqb_spec system "Windows") as [->|Hw]; simpl in *.
  - destruct vs_installed, vs_exists, clang, gpp; simpl in H; try discriminate;
      injection H as <-; simpl; auto 6.
  - destruct (String.eqb_spec system "Linux") as [->|Hl]; simpl in *.
    + destruct clang, gpp; simpl in H; try discriminate; injection H as <-; simpl; auto 6.
    + destruct (String.eqb_spec system "Darwin") as [->|Hd]; simpl in *.
      * destruct clang; simpl in H; [|discriminate]. injection H as <-. simpl. auto 6.
      * discriminate.
Qed.

Lemma auto_compiler_in_matrix_witness :
  select_compiler None "Linux" (find_vs "Linux" true) true true true = Some "g++"%string
  /\ In "g++"%string (detect_compilers (find_vs "Linux" true) true true false).
Proof.
  split; [reflexivity|].
  exact (proj1 (auto_compiler_in_matrix "Linux" true true true true "g++" eq_refl)).
Defined.

(** ** The modules given with [-m] (lines 373-376) *)

Lemma parse_modules_none specs d :
  parse_modules specs d = None <->
  Exists (fun m => List.length (split_on "="%char m) <> 2%nat) specs.
Proof.
  revert d. induction specs as [|m specs IH]; intros d; simpl.
  - split; [discriminate | intros H; inversion H].
  - rewrite Exists_cons.
    destruct (split_on "="%char m) as [|name [|files [|x r]]]; simpl.
    + split; [intros _; left; discriminate | reflexivity].
    + split; [intros _; left; discriminate | reflexivity].
    + rewrite IH. split; [now right | intros [H|H]; [now contradiction H | exact H]].
    + split; [intros _; left; discriminate | reflexivity].
Qed.

(** The options are refused (exit of line 376) exactly when some [-m]
    argument does not split into two parts at [=], whether the
    configuration file is absent, ignored, or a dictionary of options of the
    expected types. *)
Theorem merge_config_fails_iff (platform compiler : string) (a : CliArgs)
    (config : option Config) :
  merge_config platform compiler a config = None <->
  Exists (fun m => List.length (split_on "="%char m) <> 2%nat) (a_module a).
Proof.
  rewrite <- (parse_modules_none _ []). unfold merge_config.
  destruct (parse_modules (a_module a) []); [|tauto].
  destruct config; split; discriminate.
Qed.


(** ** The verbose report (lines 141-175, 624-640) *)













